(** * Lexora: a shallow embedding of the retrieval pipeline (chat.py) and of
    the ingestion helpers (ingest.py), with the properties the specification
    states about them.

    Conventions of the embedding.
    - A Python [str] is a list of Unicode code points ([list N]); [len] is
      [length].  ASCII literals are written with [lit].
    - A Python [int] is a [Z]; a similarity score (a finite float) is a [Q].
    - A Python [dict] is an association list in insertion order with unique
      keys ([dict_set] overwrites in place or appends).
    - Code that may raise returns a [result]; code that talks to a service
      threads a state holding the pending service outcomes and the log of the
      calls made so far. *)

From Stdlib Require Import ZArith NArith QArith String Ascii DecimalString.
From Stdlib Require Import Lia Sorted Permutation DecimalZ.
From stdpp Require Import base option list gmap.

Close Scope Q_scope.
Open Scope Z_scope.
#[local] Set Warnings "-register-all".

(* ===================================================================== *)
(** * Python values and string operations                                 *)
(* ===================================================================== *)

Module Py.

Definition str := list N.

(** An ASCII literal as a Python string. *)
Definition lit (s : string) : str := map N_of_ascii (list_ascii_of_string s).

(** [str(z)] / [f"{z}"] for an int. *)
Definition str_of_Z (z : Z) : str := lit (NilZero.string_of_int (Z.to_int z)).

Inductive result (A : Type) : Type :=
| Ok (a : A)
| Raise (e : str).
Arguments Ok {A} a.
Arguments Raise {A} e.

Fixpoint str_eqb (a b : str) : bool :=
  match a, b with
  | [], [] => true
  | x :: a', y :: b' => (x =? y)%N && str_eqb a' b'
  | _, _ => false
  end.

(** [c.isspace()] for a code point, the set [str.strip()] removes. *)
Definition is_space (c : N) : bool :=
  (((9 <=? c) && (c <=? 13)) || ((28 <=? c) && (c <=? 32))
   || (c =? 133) || (c =? 160) || (c =? 5760)
   || ((8192 <=? c) && (c <=? 8202))
   || (c =? 8232) || (c =? 8233) || (c =? 8239) || (c =? 8287)
   || (c =? 12288))%N.

Fixpoint lstrip_by (p : N -> bool) (s : str) : str :=
  match s with
  | [] => []
  | c :: r => if p c then lstrip_by p r else s
  end.

Definition strip_by (p : N -> bool) (s : str) : str :=
  rev (lstrip_by p (rev (lstrip_by p s))).

(** [s.strip()] *)
Definition strip (s : str) : str := strip_by is_space s.

(** [s.strip(chars)] *)
Definition strip_chars (chars : str) (s : str) : str :=
  strip_by (fun c => existsb (N.eqb c) chars) s.

(** Truth value of a string: [bool(s)]. *)
Definition truthy (s : str) : bool :=
  match s with [] => false | _ => true end.

(** [s.split(sep)] for a one-character separator. *)
Fixpoint split (sep : N) (s : str) : list str :=
  match s with
  | [] => [[]]
  | c :: r =>
      if (c =? sep)%N then [] :: split sep r
      else match split sep r with
           | w :: ws => (c :: w) :: ws
           | [] => [[c]]
           end
  end.

(** [s.rsplit(sep, 1)[0]] for a one-character separator: the part before the
    last separator, or the whole string when there is none. *)
Definition rsplit1_head (sep : N) (s : str) : str :=
  if existsb (N.eqb sep) s
  then rev (tail (lstrip_by (fun c => negb (c =? sep)%N) (rev s)))
  else s.

(** [sep.join(xs)] *)
Fixpoint join (sep : str) (xs : list str) : str :=
  match xs with
  | [] => []
  | [x] => x
  | x :: r => x ++ sep ++ join sep r
  end.

(** [xs[:n]] for any int [n] (a negative bound counts from the end). *)
Definition slice_to {A} (n : Z) (xs : list A) : list A :=
  if 0 <=? n then take (Z.to_nat n) xs
  else take (length xs - Z.to_nat (- n)) xs.

(** [len(xs)] as a Python int. *)
Definition len {A} (xs : list A) : Z := Z.of_nat (length xs).

(** ** Dictionaries in insertion order *)

Definition dict (V : Type) := list (str * V).

Fixpoint dict_get {V} (k : str) (d : dict V) : option V :=
  match d with
  | [] => None
  | (k', v) :: r => if str_eqb k k' then Some v else dict_get k r
  end.

(** [d[k] = v]: overwrite in place, or append a new key. *)
Fixpoint dict_set {V} (k : str) (v : V) (d : dict V) : dict V :=
  match d with
  | [] => [(k, v)]
  | (k', v') :: r =>
      if str_eqb k k' then (k', v) :: r else (k', v') :: dict_set k v r
  end.

Definition dict_keys {V} (d : dict V) : list str := map fst d.
Definition dict_values {V} (d : dict V) : list V := map snd d.

(** ** JSON-shaped values *)

Inductive value : Type :=
| VNone
| VBool (b : bool)
| VInt (z : Z)
| VFloat (q : Q)
| VStr (s : str)
| VList (l : list value)
| VDict (d : list (str * value)).

(** The interpreter tables the code relies on and this development does not
    fix: Unicode case mapping and character classes, the printing of floats
    and of quoted strings, and the iteration order of a [set] of strings
    (which depends on the per-process hash seed). *)
Record runtime : Type := {
  str_upper : str -> str;            (* s.upper() *)
  is_word : N -> bool;               (* \w of the re module *)
  digit_value : N -> option Z;       (* \d, with the digit's value for int() *)
  float_repr : Q -> str;             (* repr(x) for a float *)
  str_repr : str -> str;             (* repr(s) for a str *)
  set_order : list str -> list str   (* list(set(xs)) *)
}.

End Py.
Import Py.

(* ===================================================================== *)
(** * hashlib.md5 and UTF-8 encoding                                      *)
(* ===================================================================== *)

Module MD5.

Definition w32 (x : Z) : Z := x mod 2 ^ 32.

Definition rotl (x c : Z) : Z :=
  w32 (Z.lor (Z.shiftl x c) (Z.shiftr x (32 - c))).

Definition not32 (x : Z) : Z := Z.lxor x 4294967295.

Definition shifts : list Z :=
  [7; 12; 17; 22; 7; 12; 17; 22; 7; 12; 17; 22; 7; 12; 17; 22;
   5; 9; 14; 20; 5; 9; 14; 20; 5; 9; 14; 20; 5; 9; 14; 20;
   4; 11; 16; 23; 4; 11; 16; 23; 4; 11; 16; 23; 4; 11; 16; 23;
   6; 10; 15; 21; 6; 10; 15; 21; 6; 10; 15; 21; 6; 10; 15; 21].

Definition sines : list Z :=
  [3614090360; 3905402710; 606105819; 3250441966;
   4118548399; 1200080426; 2821735955; 4249261313;
   1770035416; 2336552879; 4294925233; 2304563134;
   1804603682; 4254626195; 2792965006; 1236535329;
   4129170786; 3225465664; 643717713; 3921069994;
   3593408605; 38016083; 3634488961; 3889429448;
   568446438; 3275163606; 4107603335; 1163531501;
   2850285829; 4243563512; 1735328473; 2368359562;
   4294588738; 2272392833; 1839030562; 4259657740;
   2763975236; 1272893353; 4139469664; 3200236656;
   681279174; 3936430074; 3572445317; 76029189;
   3654602809; 3873151461; 530742520; 3299628645;
   4096336452; 1126891415; 2878612391; 4237533241;
   1700485571; 2399980690; 4293915773; 2240044497;
   1873313359; 4264355552; 2734768916; 1309151649;
   4149444226; 3174756917; 718787259; 3951481745].

Definition quad : Type := Z * Z * Z * Z.

Definition init : quad := (1732584193, 4023233417, 2562383102, 271733878).

(** Little-endian 32-bit words of a 64-byte block. *)
Fixpoint words (bytes : list Z) : list Z :=
  match bytes with
  | b0 :: b1 :: b2 :: b3 :: r =>
      (b0 + 256 * b1 + 65536 * b2 + 16777216 * b3) :: words r
  | _ => []
  end.

Definition round (m : list Z) (st : quad) (i : nat) : quad :=
  let '(a, b, c, d) := st in
  let '(f, g) :=
    if (i <? 16)%nat then (Z.lor (Z.land b c) (Z.land (not32 b) d), i)
    else if (i <? 32)%nat
         then (Z.lor (Z.land d b) (Z.land (not32 d) c), ((5 * i + 1) mod 16)%nat)
    else if (i <? 48)%nat
         then (Z.lxor (Z.lxor b c) d, ((3 * i + 5) mod 16)%nat)
    else (Z.lxor c (Z.lor b (not32 d)), ((7 * i) mod 16)%nat) in
  let f' := w32 (f + a + nth i sines 0 + nth g m 0) in
  (d, w32 (b + rotl f' (nth i shifts 0)), b, c).

Definition block (st : quad) (bytes : list Z) : quad :=
  let '(a0, b0, c0, d0) := st in
  let '(a, b, c, d) := fold_left (round (words bytes)) (seq 0 64) st in
  (w32 (a0 + a), w32 (b0 + b), w32 (c0 + c), w32 (d0 + d)).

Fixpoint blocks (fuel : nat) (st : quad) (bytes : list Z) : quad :=
  match fuel, bytes with
  | S fuel', _ :: _ => blocks fuel' (block st (take 64 bytes)) (drop 64 bytes)
  | _, _ => st
  end.

Fixpoint le_bytes (n : nat) (x : Z) : list Z :=
  match n with
  | O => []
  | S n' => (x mod 256) :: le_bytes n' (x / 256)
  end.

Definition pad (msg : list Z) : list Z :=
  let l := Z.of_nat (length msg) in
  msg ++ [128] ++ repeat 0 (Z.to_nat ((55 - l) mod 64))
      ++ le_bytes 8 ((8 * l) mod 2 ^ 64).

Definition digest (msg : list Z) : list Z :=
  let p := pad msg in
  let '(a, b, c, d) := blocks (length p) init p in
  le_bytes 4 a ++ le_bytes 4 b ++ le_bytes 4 c ++ le_bytes 4 d.

Definition hex_digit (x : Z) : N :=
  if x <? 10 then Z.to_N (48 + x) else Z.to_N (87 + x).

(** [hashlib.md5(bytes).hexdigest()] *)
Definition hexdigest (msg : list Z) : str :=
  flat_map (fun b => [hex_digit (b / 16); hex_digit (b mod 16)]) (digest msg).

End MD5.

(** [text.encode()]: UTF-8; a surrogate code point cannot be encoded. *)
Definition utf8_char (c : N) : option (list Z) :=
  let z := Z.of_N c in
  if z <? 128 then Some [z]
  else if z <? 2048 then Some [192 + z / 64; 128 + z mod 64]
  else if z <? 65536 then
    if (55296 <=? z) && (z <=? 57343) then None
    else Some [224 + z / 4096; 128 + (z / 64) mod 64; 128 + z mod 64]
  else if z <? 1114112 then
    Some [240 + z / 262144; 128 + (z / 4096) mod 64;
          128 + (z / 64) mod 64; 128 + z mod 64]
  else None.

Fixpoint utf8_encode (s : str) : option (list Z) :=
  match s with
  | [] => Some []
  | c :: r =>
      match utf8_char c, utf8_encode r with
      | Some bs, Some rest => Some (bs ++ rest)
      | _, _ => None
      end
  end.

(* ===================================================================== *)
(** * ingest.py: metadata sanitization, chunk ids and upsert              *)
(* ===================================================================== *)

Module Ingest.

Definition MAX_RETRIES : nat := 3.
Definition PINECONE_BATCH_SIZE : nat := 100.

Definition rbind {A B} (c : result A) (k : A -> result B) : result B :=
  match c with
  | Ok a => k a
  | Raise e => Raise e
  end.

Notation "'let?' x ':=' c 'in' k" := (rbind c (fun x => k))
  (at level 10, x pattern, c at level 100, k at level 200).

Section WithRuntime.

Variable rt : runtime.

(** [repr(v)] of a JSON-shaped value. *)
Fixpoint py_repr (v : value) : str :=
  match v with
  | VNone => lit "None"
  | VBool true => lit "True"
  | VBool false => lit "False"
  | VInt z => str_of_Z z
  | VFloat q => float_repr rt q
  | VStr s => str_repr rt s
  | VList l => lit "[" ++ join (lit ", ") (map py_repr l) ++ lit "]"
  | VDict d =>
      lit "{"
      ++ join (lit ", ")
           (map (fun kv => str_repr rt (fst kv) ++ lit ": " ++ py_repr (snd kv)) d)
      ++ lit "}"
  end.

(** [str(v)], also what an f-string field prints. *)
Definition py_str (v : value) : str :=
  match v with
  | VStr s => s
  | _ => py_repr v
  end.

Definition is_str (v : value) : bool :=
  match v with VStr _ => true | _ => false end.

Definition is_none (v : value) : bool :=
  match v with VNone => true | _ => false end.

(** [" | ".join(f"{ik}:{iv}" for ik, iv in v.items() if iv is not None)] *)
Definition flatten_dict (d : list (str * value)) : str :=
  join (lit " | ")
    (map (fun kv => fst kv ++ lit ":" ++ py_str (snd kv))
       (List.filter (fun kv => negb (is_none (snd kv))) d)).

(** One iteration of the loop of [sanitize_metadata]: [None] is [continue]
    (the key is skipped), [Some v'] is [safe[k] = v']. *)
Definition sanitize_value (v : value) : option value :=
  match v with
  | VNone => None
  | VStr _ | VInt _ | VFloat _ | VBool _ => Some v
  | VList l =>
      if forallb is_str l then Some v
      else Some (VStr (join (lit " | ") (map py_str l)))
  | VDict d => Some (VStr (flatten_dict d))
  end.

Fixpoint sanitize_loop (items : list (str * value)) (safe : dict value)
  : dict value :=
  match items with
  | [] => safe
  | (k, v) :: r =>
      sanitize_loop r
        (match sanitize_value v with
         | Some v' => dict_set k v' safe
         | None => safe
         end)
  end.

Definition sanitize_metadata (meta : dict value) : dict value :=
  sanitize_loop meta [].

End WithRuntime.

(** [hashlib.md5(text.encode()).hexdigest()[:8]] *)
Definition content_hash (text : str) : result str :=
  match utf8_encode text with
  | Some bytes => Ok (slice_to 8 (MD5.hexdigest bytes))
  | None => Raise (lit "UnicodeEncodeError")
  end.

Definition generate_doc_id (filename : str) (index : Z) (text : str)
  : result str :=
  let? h := content_hash text in
  Ok (filename ++ lit "___" ++ str_of_Z index ++ lit "___" ++ h).

(** ** The vector index and [upsert_to_pinecone] *)

Definition vector : Type := list Q.
Definition entry : Type := str * vector * dict value.

(** Modelled from the spec: the vector index service is an external
    collaborator; its [upsert] is an overwrite by id (section 6,
    "upsert(list of (id, vector, metadata)) - idempotent overwrite by id").
    A call either stores the whole batch or fails; the outcomes of the
    successive calls are the [attempts] still to come. *)
Record index_state : Type := {
  store : gmap str (vector * dict value);
  attempts : list bool
}.

Definition store_batch (vectors : list entry)
  (m : gmap str (vector * dict value)) : gmap str (vector * dict value) :=
  fold_left (fun acc (e : entry) => <[e.1.1 := (e.1.2, e.2)]> acc) vectors m.

Definition index_upsert (vectors : list entry) (s : index_state)
  : result unit * index_state :=
  match attempts s with
  | true :: rest =>
      (Ok tt, {| store := store_batch vectors (store s); attempts := rest |})
  | false :: rest =>
      (Raise (lit "upsert failed"), {| store := store s; attempts := rest |})
  | [] => (Raise (lit "upsert failed"), s)
  end.

(** [metadatas[idx].get("text", "")] as the argument of [text.encode()]. *)
Definition meta_text (m : dict value) : result str :=
  match dict_get (lit "text") m with
  | None => Ok []
  | Some (VStr s) => Ok s
  | Some _ => Raise (lit "AttributeError")
  end.

(** The loop [for j, vec in enumerate(batch_embeddings)], from position [j]. *)
Fixpoint prepare_batch (filename : str) (metadatas batch_metadatas : list (dict value))
  (i j : nat) (batch_embeddings : list vector) : result (list entry) :=
  match batch_embeddings with
  | [] => Ok []
  | vec :: r =>
      let idx := (i + j)%nat in
      let? m := from_option Ok (Raise (lit "IndexError")) (metadatas !! idx) in
      let? text := meta_text m in
      let? _id := generate_doc_id filename (Z.of_nat idx) text in
      let? bm := from_option Ok (Raise (lit "IndexError")) (batch_metadatas !! j) in
      let? vs := prepare_batch filename metadatas batch_metadatas i (S j) r in
      Ok ((_id, vec, bm) :: vs)
  end.

(** The retry loop [for attempt in range(MAX_RETRIES)]. *)
Fixpoint upsert_attempts (range : list nat) (vectors : list entry)
  (s : index_state) : result unit * index_state :=
  match range with
  | [] => (Ok tt, s)
  | attempt :: rest =>
      match index_upsert vectors s with
      | (Ok _, s') => (Ok tt, s')
      | (Raise e, s') =>
          if (attempt <? MAX_RETRIES - 1)%nat
          then upsert_attempts rest vectors s'
          else (Raise e, s')
      end
  end.

(** The batch loop [for i in range(0, len(embeddings), batch_size)]. *)
Fixpoint upsert_batches (starts : list nat) (embeddings : list vector)
  (metadatas : list (dict value)) (filename : str) (batch_size : nat)
  (s : index_state) : result unit * index_state :=
  match starts with
  | [] => (Ok tt, s)
  | i :: rest =>
      let batch_embeddings := take batch_size (drop i embeddings) in
      let batch_metadatas := take batch_size (drop i metadatas) in
      match prepare_batch filename metadatas batch_metadatas i 0 batch_embeddings with
      | Raise e => (Raise e, s)
      | Ok vectors =>
          match upsert_attempts (seq 0 MAX_RETRIES) vectors s with
          | (Ok _, s') =>
              upsert_batches rest embeddings metadatas filename batch_size s'
          | (Raise e, s') => (Raise e, s')
          end
      end
  end.

(** [range(0, n, step)] for a positive step. *)
Definition range_step (n step : nat) : list nat :=
  map (fun q => (q * step)%nat) (seq 0 ((n + step - 1) / step)).

Definition upsert_to_pinecone (embeddings : list vector)
  (metadatas : list (dict value)) (filename : str) (batch_size : nat)
  (s : index_state) : result unit * index_state :=
  match batch_size with
  | O => (Raise (lit "ZeroDivisionError"), s)
  | _ =>
      upsert_batches (range_step (length embeddings) batch_size)
        embeddings metadatas filename batch_size s
  end.

End Ingest.


(* ===================================================================== *)
(** * chat.py: the query-time pipeline                                    *)
(* ===================================================================== *)

Module Chat.

Definition vector : Type := list Q.

(** The metadata of a match.  [text] and [index_source] are strings when
    present (the chunk body stored at ingestion, and the tag the retriever
    writes); every other key is kept as it is in [fields]. *)
Record Metadata : Type := {
  text : option str;
  index_source : option str;
  fields : dict value
}.

(** A match returned by an index query: [{id, score, metadata}]. *)
Record Match : Type := {
  id : str;
  score : Q;
  metadata : Metadata
}.

(** ** Service calls, their outcomes, and the process state *)

Inductive call : Type :=
| CallEmbed (input : str)
| CallQuery (index_name : str) (v : vector) (top_k : Z)
| CallChat (model : str) (messages : list (str * str))
    (temperature : Q) (max_tokens timeout : Z).

Inductive response : Type :=
| RespVector (v : vector)
| RespMatches (ms : list Match)
| RespText (content : str)
| RespError (e : str).

(** [pending]: the outcomes of the service calls still to come, in order;
    [calls]: the network calls made so far, each with its outcome;
    [chat_history] and [session_file]: the module-level transcript and what
    [save_session] last wrote. *)
Record state : Type := {
  pending : list response;
  calls : list (call * response);
  chat_history : list (str * str);
  session_file : option (list (str * str))
}.

Definition M (A : Type) : Type := state -> result A * state.

Definition ret {A} (a : A) : M A := fun s => (Ok a, s).

Definition raise {A} (e : str) : M A := fun s => (Raise e, s).

Definition bind {A B} (c : M A) (k : A -> M B) : M B :=
  fun s =>
    match c s with
    | (Ok a, s') => k a s'
    | (Raise e, s') => (Raise e, s')
    end.

(** [try: c  except Exception as e: h e] *)
Definition try_catch {A} (c : M A) (h : str -> M A) : M A :=
  fun s =>
    match c s with
    | (Ok a, s') => (Ok a, s')
    | (Raise e, s') => h e s'
    end.

Notation "'let!' x ':=' c 'in' k" := (bind c (fun x => k))
  (at level 10, x pattern, c at level 100, k at level 200).

(** A network call: its outcome is the next pending one, and the call is
    logged with it.  An outcome of the wrong shape, or none at all, is a
    failed call. *)
Definition service {A} (c : call) (expect : response -> option A) : M A :=
  fun s =>
    let logged r rest :=
      {| pending := rest; calls := calls s ++ [(c, r)];
         chat_history := chat_history s; session_file := session_file s |} in
    match pending s with
    | [] =>
        (Raise (lit "no response"), logged (RespError (lit "no response")) [])
    | RespError e :: rest => (Raise e, logged (RespError e) rest)
    | r :: rest =>
        match expect r with
        | Some a => (Ok a, logged r rest)
        | None => (Raise (lit "malformed response"), logged r rest)
        end
    end.

(** [emb.embed_query(q)] *)
Definition embed_query (q : str) : M vector :=
  service (CallEmbed q)
    (fun r => match r with RespVector v => Some v | _ => None end).

(** [idx.query(vector=qvec, top_k=k, include_metadata=True).get("matches", [])] *)
Definition index_query (name : str) (qvec : vector) (k : Z) : M (list Match) :=
  service (CallQuery name qvec k)
    (fun r => match r with RespMatches ms => Some ms | _ => None end).

(** [client.chat.completions.create(...).choices[0].message.content] *)
Definition chat_completion (messages : list (str * str))
  (temperature : Q) (max_tokens timeout : Z) : M str :=
  service (CallChat (lit "gpt-4o-mini") messages temperature max_tokens timeout)
    (fun r => match r with RespText c => Some c | _ => None end).

Definition nl : str := [10%N].

Definition SYSTEM_PROMPT : str :=
  lit "You are an Indian law assistant." ++ nl
  ++ lit "Your job is to:" ++ nl
  ++ lit "1. Answer direct questions about the Constitution of India and other laws." ++ nl
  ++ lit "2. If a user describes a real-life situation in plain words (not a direct legal question)," ++ nl
  ++ lit "   - Identify possible legal issues involved." ++ nl
  ++ lit "   - Suggest which laws, constitutional provisions, or schedules may apply." ++ nl
  ++ lit "   - Explain in simple, non-technical terms what kind of legal action or case may be possible." ++ nl
  ++ lit "   - If information is insufficient, politely ask clarifying questions." ++ nl
  ++ lit "Do NOT include citations, filenames, or sources in your response." ++ nl
  ++ lit "Always keep your language clear, practical, and understandable to non-lawyers." ++ nl.

(** The two indexes, in the iteration order of the [indexes] dict. *)
Definition indexes : list str := [lit "constitution"; lit "criminal"].

Definition save_session : M unit :=
  fun s =>
    (Ok tt,
     {| pending := pending s; calls := calls s;
        chat_history := chat_history s;
        session_file := Some (chat_history s) |}).

Definition append_history (role content : str) : M unit :=
  fun s =>
    (Ok tt,
     {| pending := pending s; calls := calls s;
        chat_history := chat_history s ++ [(role, content)];
        session_file := session_file s |}).

Section WithRuntime.

Variable rt : runtime.

(** ** Multi-query expansion *)

Definition expansion_prompt (question : str) (n : Z) : str :=
  nl
  ++ lit "    Rewrite the following law-related question into " ++ str_of_Z n
  ++ lit " different variations:" ++ nl
  ++ lit "    - One in plain layperson language" ++ nl
  ++ lit "    - One in formal legal language" ++ nl
  ++ lit "    - One as a student/research query" ++ nl
  ++ nl
  ++ lit "    Question: " ++ question ++ nl
  ++ lit "    Return only the list of variations, one per line." ++ nl
  ++ lit "    ".

(** The characters of [q.strip("-•1234567890. ")]. *)
Definition bullet_chars : str := lit "-" ++ [8226%N] ++ lit "1234567890. ".

Definition parse_variations (content : str) : list str :=
  map (strip_chars bullet_chars)
    (List.filter (fun q => truthy (strip q)) (split 10%N content)).

Definition generate_alternative_queries (question : str) (n : Z)
  : M (list str) :=
  if negb (truthy (strip question)) then ret [question]
  else
    try_catch
      (let! raw :=
         chat_completion [(lit "user", expansion_prompt question n)]
           (7 # 10)%Q 200 30 in
       let content := strip raw in
       let variations := parse_variations content in
       ret (slice_to (n + 1) (set_order rt (question :: variations))))
      (fun _ => ret [question]).

(** ** Multi-index retrieval *)

(** [m["metadata"]["index_source"] = name] *)
Definition tag_source (name : str) (m : Match) : Match :=
  {| id := id m; score := score m;
     metadata := {| text := text (metadata m);
                    index_source := Some name;
                    fields := fields (metadata m) |} |}.

(** [a > b] on scores. *)
Definition score_gt (a b : Q) : bool := negb (Qle_bool a b).

(** The body of [for m in res.get("matches", [])]. *)
Definition merge_match (name : str) (expanded_matches : dict Match) (m : Match)
  : dict Match :=
  let m := tag_source name m in
  match dict_get (id m) expanded_matches with
  | None => dict_set (id m) m expanded_matches
  | Some old =>
      if score_gt (score m) (score old)
      then dict_set (id m) m expanded_matches
      else expanded_matches
  end.

(** [for name, idx in indexes.items()]: the matches merged before a failing
    query stay merged; the flag tells whether every query succeeded. *)
Fixpoint query_indexes (names : list str) (qvec : vector) (k : Z)
  (expanded_matches : dict Match) (s : state) : (dict Match * bool) * state :=
  match names with
  | [] => ((expanded_matches, true), s)
  | name :: rest =>
      match index_query name qvec k s with
      | (Ok ms, s') =>
          query_indexes rest qvec k
            (fold_left (merge_match name) ms expanded_matches) s'
      | (Raise _, s') => ((expanded_matches, false), s')
      end
  end.

(** [for q in queries: try: ... except: continue], carrying
    [(expanded_matches, successful_queries)]. *)
Fixpoint retrieve_loop (queries : list str) (k : Z)
  (expanded_matches : dict Match) (successful_queries : Z) (s : state)
  : (dict Match * Z) * state :=
  match queries with
  | [] => ((expanded_matches, successful_queries), s)
  | q :: rest =>
      match embed_query q s with
      | (Raise _, s') =>
          retrieve_loop rest k expanded_matches successful_queries s'
      | (Ok qvec, s') =>
          match query_indexes indexes qvec k expanded_matches s' with
          | ((expanded', true), s'') =>
              retrieve_loop rest k expanded' (successful_queries + 1) s''
          | ((expanded', false), s'') =>
              retrieve_loop rest k expanded' successful_queries s''
          end
      end
  end.

Definition multi_query_retrieve (question : str) (k : Z) : M (list Match) :=
  if negb (truthy (strip question)) then ret []
  else
    let! queries := generate_alternative_queries question 3 in
    fun s =>
      match retrieve_loop queries k [] 0 s with
      | ((expanded_matches, _), s') => (Ok (dict_values expanded_matches), s')
      end.

(** ** Cross-link expansion *)

(** [value and isinstance(value, str) and len(value.strip()) > 2] *)
Definition link_seed (v : option value) : option str :=
  match v with
  | Some (VStr s) =>
      if truthy s && (len (strip s) >? 2) then Some s else None
  | _ => None
  end.

Definition related_keys (meta : Metadata) : list str :=
  omap (fun key => link_seed (dict_get key (fields meta)))
    [lit "schedule"; lit "appendix"; lit "part"].

Definition add_new (name : str) (expanded : dict Match) (m : Match)
  : dict Match :=
  let m := tag_source name m in
  match dict_get (id m) expanded with
  | None => dict_set (id m) m expanded
  | Some _ => expanded
  end.

Fixpoint followup_indexes (names : list str) (qvec : vector) (k : Z)
  (expanded : dict Match) (s : state) : dict Match * state :=
  match names with
  | [] => (expanded, s)
  | name :: rest =>
      match index_query name qvec k s with
      | (Ok ms, s') =>
          followup_indexes rest qvec k (fold_left (add_new name) ms expanded) s'
      | (Raise _, s') => (expanded, s')
      end
  end.

Fixpoint follow_values (values : list str) (k : Z) (expanded : dict Match)
  (s : state) : dict Match * state :=
  match values with
  | [] => (expanded, s)
  | value :: rest =>
      match embed_query value s with
      | (Raise _, s') => follow_values rest k expanded s'
      | (Ok qvec, s') =>
          match followup_indexes indexes qvec k expanded s' with
          | (expanded', s'') => follow_values rest k expanded' s''
          end
      end
  end.

Fixpoint links_loop (chunks : list Match) (k : Z) (expanded : dict Match)
  (s : state) : dict Match * state :=
  match chunks with
  | [] => (expanded, s)
  | c :: rest =>
      match follow_values (slice_to 3 (related_keys (metadata c))) k expanded s with
      | (expanded', s') => links_loop rest k expanded' s'
      end
  end.

Definition expand_with_links (chunks : list Match) (k : Z) : M (list Match) :=
  match chunks with
  | [] => ret []
  | _ =>
      fun s =>
        let expanded :=
          fold_left (fun d c => dict_set (id c) c d) chunks [] in
        match links_loop chunks k expanded s with
        | (expanded', s') => (Ok (dict_values expanded'), s')
        end
  end.

(** ** Reranking *)

Definition is_digit (c : N) : bool :=
  match digit_value rt c with Some _ => true | None => false end.

(** [\w]: a decimal digit is a word character. *)
Definition re_word (c : N) : bool := is_word rt c || is_digit c.

(** [re.findall(r'\b\d+\b', s)]: the maximal digit runs with no word
    character right before or right after.  [prev_word]: the previous
    character is a word character; [cur]: the digits (last first) of a run
    that started at a word boundary. *)
Fixpoint scan_numbers (prev_word : bool) (cur : option str) (s : str)
  : list str :=
  match s with
  | [] => match cur with Some ds => [rev ds] | None => [] end
  | c :: r =>
      if is_digit c then
        match cur with
        | Some ds => scan_numbers true (Some (c :: ds)) r
        | None =>
            if prev_word then scan_numbers true None r
            else scan_numbers true (Some [c]) r
        end
      else
        match cur with
        | Some ds =>
            if re_word c then scan_numbers true None r
            else rev ds :: scan_numbers false None r
        | None => scan_numbers (re_word c) None r
        end
  end.

Definition findall_numbers (s : str) : list str := scan_numbers false None s.

(** [int(num_str)] for a string of decimal digits. *)
Definition int_of_digits (num_str : str) : Z :=
  fold_left (fun acc c => 10 * acc + default 0 (digit_value rt c)) num_str 0.

Definition mem (i : Z) (l : list Z) : bool := existsb (Z.eqb i) l.

(** [for num_str in numbers: ...] *)
Fixpoint select_loop (numbers : list str) (n top_k : Z) (selected_idx : list Z)
  : list Z :=
  match numbers with
  | [] => selected_idx
  | num_str :: rest =>
      let idx := int_of_digits num_str in
      let selected' :=
        if (0 <=? idx) && (idx <? n) && negb (mem idx selected_idx)
        then selected_idx ++ [idx] else selected_idx in
      if len selected' >=? top_k then selected'
      else select_loop rest n top_k selected'
  end.

(** [for i in range(len(chunks)): ...] *)
Fixpoint pad_loop (range : list Z) (top_k : Z) (selected_idx : list Z)
  : list Z :=
  match range with
  | [] => selected_idx
  | i :: rest =>
      let selected' :=
        if negb (mem i selected_idx) then selected_idx ++ [i]
        else selected_idx in
      if len selected' >=? top_k then selected'
      else pad_loop rest top_k selected'
  end.

(** [range(n)] *)
Definition range (n : nat) : list Z := map Z.of_nat (seq 0 n).

Definition select_indices (raw_output : str) (n : nat) (top_k : Z) : list Z :=
  let numbers := findall_numbers raw_output in
  let selected_idx := select_loop numbers (Z.of_nat n) top_k [] in
  if len selected_idx <? top_k then pad_loop (range n) top_k selected_idx
  else selected_idx.

(** [chunks[i]] *)
Definition item {A} (xs : list A) (i : Z) : result A :=
  let j := if i <? 0 then len xs + i else i in
  if j <? 0 then Raise (lit "IndexError")
  else from_option Ok (Raise (lit "IndexError")) (xs !! Z.to_nat j).

(** [[chunks[i] for i in idxs]] *)
Fixpoint items {A} (xs : list A) (idxs : list Z) : result (list A) :=
  match idxs with
  | [] => Ok []
  | i :: rest =>
      match item xs i, items xs rest with
      | Ok x, Ok r => Ok (x :: r)
      | Raise e, _ => Raise e
      | _, Raise e => Raise e
      end
  end.

(** [sorted(chunks, key=lambda x: x.get("score", 0), reverse=True)]: the
    stable sort by descending score, as an insertion sort. *)
Fixpoint insert_desc (x : Match) (l : list Match) : list Match :=
  match l with
  | [] => [x]
  | y :: r =>
      if score_gt (score y) (score x) then y :: insert_desc x r
      else x :: y :: r
  end.

Definition sorted_desc (chunks : list Match) : list Match :=
  fold_right insert_desc [] chunks.

Definition chunk_line (i : nat) (c : Match) : str :=
  let text := take 300 (default [] (text (metadata c))) in
  let source := default (lit "unknown") (index_source (metadata c)) in
  lit "Chunk " ++ str_of_Z (Z.of_nat i) ++ lit " (" ++ source ++ lit "): " ++ text.

Definition rerank_prompt (question : str) (chunks : list Match) (top_k : Z)
  : str :=
  let chunk_block := join (nl ++ nl) (imap chunk_line chunks) in
  nl
  ++ lit "    You are a legal assistant. Rank the following chunks by their relevance to the question."
  ++ nl ++ nl
  ++ lit "    Question: " ++ question ++ nl
  ++ nl
  ++ lit "    Chunks:" ++ nl
  ++ lit "    " ++ chunk_block ++ nl
  ++ nl
  ++ lit "    Output ONLY the top " ++ str_of_Z top_k
  ++ lit " chunk numbers in order of relevance, comma-separated." ++ nl
  ++ lit "    ".

Definition rerank_chunks (question : str) (chunks : list Match) (top_k : Z)
  : M (list Match) :=
  match chunks with
  | [] => ret []
  | _ =>
      if len chunks <=? top_k then ret (slice_to top_k chunks)
      else
        try_catch
          (let! raw :=
             chat_completion [(lit "user", rerank_prompt question chunks top_k)]
               0%Q 100 30 in
           let raw_output := strip raw in
           let selected_idx := select_indices raw_output (length chunks) top_k in
           match items chunks (slice_to top_k selected_idx) with
           | Ok picked => ret picked
           | Raise e => raise e
           end)
          (fun _ => ret (slice_to top_k (sorted_desc chunks)))
  end.

(** ** Context assembly *)

(** The loop of [build_context], carrying [(context_parts, total_length)]. *)
Fixpoint context_loop (chunks : list Match) (max_length : Z)
  (context_parts : list str) (total_length : Z) : list str :=
  match chunks with
  | [] => context_parts
  | c :: rest =>
      let text := default [] (text (metadata c)) in
      let source := default (lit "unknown") (index_source (metadata c)) in
      if negb (truthy (strip text))
      then context_loop rest max_length context_parts total_length
      else
        let snippet := lit "[" ++ str_upper rt source ++ lit "] " ++ text in
        if total_length + len snippet >? max_length then
          let remaining := max_length - total_length in
          if remaining >? 100
          then context_parts
               ++ [rsplit1_head 32%N (slice_to remaining snippet) ++ lit "..."]
          else context_parts
        else
          let context_parts' := context_parts ++ [snippet] in
          let total_length' := total_length + len snippet in
          if total_length' >=? max_length then context_parts'
          else context_loop rest max_length context_parts' total_length'
  end.

Definition build_context (chunks : list Match) (max_length : Z) : str :=
  join (nl ++ nl) (context_loop chunks max_length [] 0).

(** ** Answer *)

Definition msg_valid_question : str := lit "Please provide a valid question.".
Definition msg_no_results : str := lit "I couldn't find relevant information.".
Definition msg_no_content : str :=
  lit "I found data but couldn" ++ [8217%N] ++ lit "t extract meaningful content.".
Definition error_prefix : str := [10060%N] ++ lit " Error while answering: ".

Definition answer_pipeline (question : str) : M str :=
  let! candidate_chunks := multi_query_retrieve question 5 in
  match candidate_chunks with
  | [] => ret msg_no_results
  | _ =>
      let! expanded_chunks := expand_with_links candidate_chunks 3 in
      let! top_chunks := rerank_chunks question expanded_chunks 5 in
      let context := build_context top_chunks 8000 in
      if negb (truthy (strip context)) then ret msg_no_content
      else
        let user_message :=
          lit "Question: " ++ question ++ nl ++ nl
          ++ lit "Context:" ++ nl ++ context ++ nl ++ nl ++ lit "Answer:" in
        let! answer :=
          chat_completion
            [(lit "system", SYSTEM_PROMPT); (lit "user", user_message)]
            0%Q 600 60 in
        let! _ := append_history (lit "user") question in
        let! _ := append_history (lit "assistant") answer in
        let! _ := save_session in
        ret answer
  end.

Definition answer_question (question : str) : M str :=
  if negb (truthy (strip question)) then ret msg_valid_question
  else
    try_catch (answer_pipeline question)
      (fun e => ret (error_prefix ++ e)).

End WithRuntime.

End Chat.

(* ===================================================================== *)
(** * ingest.py: normalization, chunking, embedding batches               *)
(* ===================================================================== *)

Module Normalize.

Import Ingest.

Definition doc : Type := dict value.

(** Truth value of a JSON-shaped value: [bool(v)]. *)
Definition truth (v : value) : bool :=
  match v with
  | VNone => false
  | VBool b => b
  | VInt z => negb (z =? 0)
  | VFloat q => negb (Qeq_bool q 0)
  | VStr s => truthy s
  | VList l => match l with [] => false | _ => true end
  | VDict d => match d with [] => false | _ => true end
  end.

(** [v.get(key, default)]: only a mapping has [get]. *)
Definition get (v : value) (key : str) (default_value : value) : result value :=
  match v with
  | VDict d => Ok (default default_value (dict_get key d))
  | _ => Raise (lit "AttributeError")
  end.

(** The items of [for x in v]: the elements of a list, the keys of a mapping,
    the characters of a string; nothing else can be iterated. *)
Definition iterate (v : value) : result (list value) :=
  match v with
  | VList l => Ok l
  | VDict d => Ok (map VStr (dict_keys d))
  | VStr s => Ok (map (fun c => VStr [c]) s)
  | _ => Raise (lit "TypeError")
  end.

(** [v and v.strip()] as a condition: a true value that is no string has no
    [strip]. *)
Definition nonblank (v : value) : result bool :=
  if truth v then
    match v with
    | VStr s => Ok (truthy (strip s))
    | _ => Raise (lit "AttributeError")
    end
  else Ok false.

(** The documents of a loop whose body appends to [docs]: those of each item,
    in order; the first failure ends everything. *)
Fixpoint collect {A B} (f : A -> result (list B)) (l : list A)
  : result (list B) :=
  match l with
  | [] => Ok []
  | x :: r =>
      let? ds := f x in
      let? rest := collect f r in
      Ok (ds ++ rest)
  end.

Definition validate_data_structure (data : value) : result unit :=
  match data with
  | VDict d =>
      match dict_get (lit "chapters") d, dict_get (lit "preamble") d with
      | None, None =>
          Raise (lit "Data must contain 'chapters' or 'preamble'")
      | _, _ => Ok tt
      end
  | _ => Raise (lit "Expected dict")
  end.

(** [" — "], with the em dash of the source. *)
Definition dash : str := lit " " ++ [8212%N] ++ lit " ".

Section WithRuntime.

Variable rt : runtime.

(** [splitter.split_text], the text splitter of the library. *)
Variable split_text : str -> list str.

Definition fmt (v : value) : str := py_str rt v.

(** The body of [for sub in sec.get("sub_sections", [])]. *)
Definition sub_section_docs (ch_num ch_title sec_num sec_title act_title sub : value)
  : result (list doc) :=
  let? text0 := get sub (lit "text") (VStr []) in
  let? term := get sub (lit "term") VNone in
  let? defn := get sub (lit "definition") VNone in
  let text :=
    if truth term && truth defn
    then VStr (fmt term ++ lit ": " ++ fmt defn) else text0 in
  let? keep := nonblank text in
  let? number_or_empty := get sub (lit "sub_section_number") (VStr []) in
  let? number := get sub (lit "sub_section_number") VNone in
  Ok (if keep then
        [[(lit "text",
           VStr (lit "Section " ++ fmt sec_num ++ fmt number_or_empty
                 ++ lit ": " ++ fmt text));
          (lit "chapter_number", ch_num);
          (lit "chapter_title", ch_title);
          (lit "section_number", sec_num);
          (lit "section_title", sec_title);
          (lit "sub_section_number", number);
          (lit "act_title", act_title);
          (lit "doc_type", VStr (lit "subsection"))]]
      else []).

(** The body of [for clause in sec.get("clauses", [])]. *)
Definition clause_docs (ch_num ch_title sec_num sec_title act_title clause : value)
  : result (list doc) :=
  let? clause_text := get clause (lit "text") (VStr []) in
  let? keep := nonblank clause_text in
  let? label_or_empty := get clause (lit "clause_label") (VStr []) in
  let? label := get clause (lit "clause_label") VNone in
  Ok (if keep then
        [[(lit "text",
           VStr (lit "Section " ++ fmt sec_num ++ fmt label_or_empty
                 ++ lit ": " ++ fmt clause_text));
          (lit "chapter_number", ch_num);
          (lit "chapter_title", ch_title);
          (lit "section_number", sec_num);
          (lit "section_title", sec_title);
          (lit "clause_label", label);
          (lit "act_title", act_title);
          (lit "doc_type", VStr (lit "clause"))]]
      else []).

Definition explanation_doc (ch_num ch_title sec_num sec_title act_title : value)
  (number_or_empty number : value) (body : str) : doc :=
  [(lit "text",
    VStr (lit "Explanation " ++ fmt number_or_empty ++ lit ": " ++ body));
   (lit "chapter_number", ch_num);
   (lit "chapter_title", ch_title);
   (lit "section_number", sec_num);
   (lit "section_title", sec_title);
   (lit "explanation_number", number);
   (lit "act_title", act_title);
   (lit "doc_type", VStr (lit "explanation"))].

(** The body of [for t in exp["types"]]. *)
Definition type_docs (ch_num ch_title sec_num sec_title act_title exp t : value)
  : result (list doc) :=
  let? ty := get t (lit "type") (VStr []) in
  let? defn := get t (lit "definition") (VStr []) in
  let type_text := fmt ty ++ dash ++ fmt defn in
  let? number_or_empty := get exp (lit "explanation_number") (VStr []) in
  let? number := get exp (lit "explanation_number") VNone in
  Ok (if truthy (strip type_text) then
        [explanation_doc ch_num ch_title sec_num sec_title act_title
           number_or_empty number type_text]
      else []).

(** The body of [for exp in sec.get("explanations", [])].  An explanation
    that is no mapping fails in every case: at the membership test, at
    [exp["types"]] or at [exp.get]. *)
Definition explanation_docs (ch_num ch_title sec_num sec_title act_title exp : value)
  : result (list doc) :=
  match exp with
  | VDict d =>
      match dict_get (lit "types") d with
      | Some types =>
          let? ts := iterate types in
          collect (type_docs ch_num ch_title sec_num sec_title act_title exp) ts
      | None =>
          let? exp_content := get exp (lit "content") (VStr []) in
          let? keep := nonblank exp_content in
          let? number_or_empty := get exp (lit "explanation_number") (VStr []) in
          let? number := get exp (lit "explanation_number") VNone in
          Ok (if keep then
                [explanation_doc ch_num ch_title sec_num sec_title act_title
                   number_or_empty number (fmt exp_content)]
              else [])
      end
  | _ => Raise (lit "TypeError")
  end.

(** The body of [for sec in ch.get("sections", [])]. *)
Definition section_docs (ch_num ch_title act_title act_number sec : value)
  : result (list doc) :=
  let? sec_num := get sec (lit "section_number") (VStr []) in
  let? sec_title := get sec (lit "section_title") (VStr []) in
  let? sec_text := get sec (lit "text") (VStr []) in
  let? keep := nonblank sec_text in
  let main :=
    if keep then
      [[(lit "text",
         VStr (lit "Section " ++ fmt sec_num ++ dash ++ fmt sec_title
               ++ lit ": " ++ fmt sec_text));
        (lit "chapter_number", ch_num);
        (lit "chapter_title", ch_title);
        (lit "section_number", sec_num);
        (lit "section_title", sec_title);
        (lit "act_title", act_title);
        (lit "act_number", act_number);
        (lit "doc_type", VStr (lit "section"))]]
    else [] in
  let? subs_v := get sec (lit "sub_sections") (VList []) in
  let? subs := iterate subs_v in
  let? sub_docs :=
    collect (sub_section_docs ch_num ch_title sec_num sec_title act_title) subs in
  let? clauses_v := get sec (lit "clauses") (VList []) in
  let? clauses := iterate clauses_v in
  let? cl_docs :=
    collect (clause_docs ch_num ch_title sec_num sec_title act_title) clauses in
  let? exps_v := get sec (lit "explanations") (VList []) in
  let? exps := iterate exps_v in
  let? exp_docs :=
    collect (explanation_docs ch_num ch_title sec_num sec_title act_title) exps in
  Ok (main ++ sub_docs ++ cl_docs ++ exp_docs).

(** The body of [for ch in data.get("chapters", [])]. *)
Definition chapter_docs (act_title act_number ch : value) : result (list doc) :=
  let? ch_num := get ch (lit "chapter_number") VNone in
  let? ch_title := get ch (lit "chapter_title") VNone in
  let? secs_v := get ch (lit "sections") (VList []) in
  let? secs := iterate secs_v in
  collect (section_docs ch_num ch_title act_title act_number) secs.

(** The documents of an act before chunking. *)
Definition structural_docs (data : value) : result (list doc) :=
  let? act_title := get data (lit "act_title") (VStr []) in
  let? act_number := get data (lit "act_number") (VStr []) in
  let? act_date := get data (lit "date_of_commencement") (VStr []) in
  let? preamble := get data (lit "preamble") (VStr []) in
  let? keep := nonblank preamble in
  let pre :=
    if keep then
      [[(lit "text", VStr (lit "Preamble: " ++ fmt preamble));
        (lit "act_title", act_title);
        (lit "act_number", act_number);
        (lit "date_of_commencement", act_date);
        (lit "doc_type", VStr (lit "preamble"))]]
    else [] in
  let? chapters_v := get data (lit "chapters") (VList []) in
  let? chapters := iterate chapters_v in
  let? ch_docs := collect (chapter_docs act_title act_number) chapters in
  Ok (pre ++ ch_docs).

(** [chunk_text(text, splitter)] *)
Definition chunk_text (text : value) : list str :=
  match text with
  | VStr s => if truthy s then split_text s else []
  | _ => []
  end.

(** [f"{d.get('section_title','')} {d.get('chapter_title','')}".strip()] *)
Definition keywords_of (d : doc) : value :=
  VStr (strip (fmt (default (VStr []) (dict_get (lit "section_title") d))
               ++ lit " "
               ++ fmt (default (VStr []) (dict_get (lit "chapter_title") d)))).

(** [if "text" not in d or not d["text"]: d["text"] = str(d)] *)
Definition ensure_text (d : doc) : doc :=
  match dict_get (lit "text") d with
  | Some v =>
      if truth v then d
      else dict_set (lit "text") (VStr (py_repr rt (VDict d))) d
  | None => dict_set (lit "text") (VStr (py_repr rt (VDict d))) d
  end.

(** One chunk of a chunked document. *)
Definition chunked_doc (d : doc) (total : nat) (chunk_idx : nat) (ch : str)
  : doc :=
  let new_doc := dict_set (lit "text") (VStr ch) d in
  let new_doc := dict_set (lit "chunk_index") (VInt (Z.of_nat chunk_idx)) new_doc in
  let new_doc := dict_set (lit "total_chunks") (VInt (Z.of_nat total)) new_doc in
  let new_doc := dict_set (lit "is_chunked") (VBool true) new_doc in
  dict_set (lit "keywords") (keywords_of new_doc) new_doc.

(** The body of [for d in docs] in the chunking pass. *)
Definition chunk_doc (d : doc) : list doc :=
  let d := ensure_text d in
  let chunks := chunk_text (default VNone (dict_get (lit "text") d)) in
  match chunks with
  | [] =>
      let d := dict_set (lit "chunk_index") (VInt 0) d in
      let d := dict_set (lit "total_chunks") (VInt 1) d in
      let d := dict_set (lit "is_chunked") (VBool false) d in
      [dict_set (lit "keywords") (keywords_of d) d]
  | _ => imap (chunked_doc d (length chunks)) chunks
  end.

Definition normalize_docs (data : value) : result (list doc) :=
  let? _ := validate_data_structure data in
  let? docs := structural_docs data in
  Ok (flat_map chunk_doc docs).

(** The loop of [ingest_json] that prepares the texts and the metadata:
    the pair [(text, meta)] of one document. *)
Definition prepare_metadata (filename ftype : str) (d : doc)
  : value * dict value :=
  let text := default (VStr []) (dict_get (lit "text") d) in
  let meta := List.filter (fun kv => negb (str_eqb (fst kv) (lit "text"))) d in
  let meta := dict_set (lit "source") (VStr filename) meta in
  let meta := dict_set (lit "type") (VStr ftype) meta in
  let meta := dict_set (lit "text") text meta in
  (text, sanitize_metadata rt meta).

End WithRuntime.

(** ** [detect_type] *)

Fixpoint prefix_of (p s : str) : bool :=
  match p, s with
  | [], _ => true
  | a :: p', b :: s' => (a =? b)%N && prefix_of p' s'
  | _ :: _, [] => false
  end.

(** [needle in hay] for strings. *)
Fixpoint contains (needle hay : str) : bool :=
  prefix_of needle hay
  || match hay with
     | [] => false
     | _ :: r => contains needle r
     end.

(** [detect_type]; [str_lower] is [fname.lower()]. *)
Definition detect_type (str_lower : str -> str) (fname : str) : str :=
  let name := str_lower fname in
  if contains (lit "amendment") name then lit "amendment"
  else if contains (lit "schedule") name then lit "schedule"
  else if contains (lit "footnote") name then lit "footnote"
  else if contains (lit "main") name || contains (lit "clean") name
       then lit "main"
  else lit "misc".

(** The loop of [ingest_json] over the documents of a file, with the file
    type detected from its name: [(all_texts, metadatas)] as a list of
    pairs. *)
Definition prepare_all (rt : runtime) (str_lower : str -> str)
  (filename : str) (docs : list doc) : list (value * dict value) :=
  let ftype := detect_type str_lower filename in
  map (prepare_metadata rt filename ftype) docs.

(** ** [embed_documents_in_batches] *)

Definition EMBEDDING_BATCH_SIZE : nat := 500.

(** The embedding service: [outcomes] are the outcomes of the calls still
    to come ([Some vs]: the call returns the vectors [vs]; [None]: it
    fails); [embed_calls] logs each call's texts with its outcome. *)
Record embed_state : Type := {
  outcomes : list (option (list vector));
  embed_calls : list (list str * option (list vector))
}.

(** [embeddings.embed_documents(batch_texts)] *)
Definition embed_documents (batch_texts : list str) (s : embed_state)
  : result (list vector) * embed_state :=
  match outcomes s with
  | [] =>
      (Raise (lit "embedding failed"),
       {| outcomes := []; embed_calls := embed_calls s ++ [(batch_texts, None)] |})
  | o :: rest =>
      (match o with
       | Some vs => Ok vs
       | None => Raise (lit "embedding failed")
       end,
       {| outcomes := rest; embed_calls := embed_calls s ++ [(batch_texts, o)] |})
  end.

(** The retry loop [for attempt in range(MAX_RETRIES)] of one batch. *)
Fixpoint embed_attempts (range : list nat) (batch_texts : list str)
  (all_embeddings : list vector) (s : embed_state)
  : result (list vector) * embed_state :=
  match range with
  | [] => (Ok all_embeddings, s)
  | attempt :: rest =>
      match embed_documents batch_texts s with
      | (Ok batch_embeddings, s') => (Ok (all_embeddings ++ batch_embeddings), s')
      | (Raise e, s') =>
          if (attempt <? MAX_RETRIES - 1)%nat
          then embed_attempts rest batch_texts all_embeddings s'
          else (Raise e, s')
      end
  end.

(** The batch loop [for i in range(0, len(texts), batch_size)]. *)
Fixpoint embed_batches (starts : list nat) (texts : list str) (batch_size : nat)
  (all_embeddings : list vector) (s : embed_state)
  : result (list vector) * embed_state :=
  match starts with
  | [] => (Ok all_embeddings, s)
  | i :: rest =>
      let batch_texts := take batch_size (drop i texts) in
      match embed_attempts (seq 0 MAX_RETRIES) batch_texts all_embeddings s with
      | (Ok all_embeddings', s') =>
          embed_batches rest texts batch_size all_embeddings' s'
      | (Raise e, s') => (Raise e, s')
      end
  end.

Definition embed_documents_in_batches (texts : list str) (batch_size : nat)
  (s : embed_state) : result (list vector) * embed_state :=
  match batch_size with
  | O => (Raise (lit "ZeroDivisionError"), s)
  | _ =>
      embed_batches (range_step (length texts) batch_size) texts batch_size [] s
  end.

End Normalize.

(* ===================================================================== *)
(** * evaluate.py: the preview of a chunk                                 *)
(* ===================================================================== *)

Module Evaluate.


End Evaluate.

(** An ASCII instance of the interpreter tables, for running the definitions:
    case mapping and character classes restricted to ASCII, and a set order
    (one of those a hash seed can give) that lists the distinct strings from
    the last-added to the first. *)
Definition ascii_upper (s : str) : str :=
  map (fun c => if ((97 <=? c) && (c <=? 122))%N then (c - 32)%N else c) s.

Definition ascii_word (c : N) : bool :=
  (((48 <=? c) && (c <=? 57)) || ((65 <=? c) && (c <=? 90))
   || ((97 <=? c) && (c <=? 122)) || (c =? 95))%N.

Definition ascii_digit (c : N) : option Z :=
  if ((48 <=? c) && (c <=? 57))%N then Some (Z.of_N c - 48) else None.

Fixpoint dedup (xs : list str) : list str :=
  match xs with
  | [] => []
  | x :: r => if existsb (str_eqb x) r then dedup r else x :: dedup r
  end.

Definition ascii_runtime : runtime :=
  {| str_upper := ascii_upper;
     is_word := ascii_word;
     digit_value := ascii_digit;
     float_repr := fun _ => lit "0.0";
     str_repr := fun s => lit "'" ++ s ++ lit "'";
     set_order := fun xs => rev (dedup xs) |}.

(** Sample data for running the definitions. *)
Definition sample (i : string) (sc : Q) (src txt : string) : Chat.Match :=
  {| Chat.id := lit i; Chat.score := sc;
     Chat.metadata := {| Chat.text := Some (lit txt);
                         Chat.index_source := Some (lit src);
                         Chat.fields := [] |} |}.

Definition fresh (outcomes : list Chat.response) : Chat.state :=
  {| Chat.pending := outcomes; Chat.calls := [];
     Chat.chat_history := []; Chat.session_file := None |}.

Definition sample_metadatas : list (dict value) :=
  [[(lit "text", VStr (lit "Preamble: We the people")); (lit "doc_type", VStr (lit "preamble"))];
   [(lit "text", VStr (lit "abc")); (lit "doc_type", VStr (lit "section"))]].

(** A run of the retriever: the expansion call times out, the question is
    embedded, the constitution index returns [doc1] (0.7) and [doc2] (0.5),
    the criminal index returns [doc1] again with 0.9. *)
Definition sample_retrieval : Chat.state :=
  fresh [Chat.RespError (lit "timeout");
         Chat.RespVector [1 # 2; 1 # 3]%Q;
         Chat.RespMatches [sample "doc1" (7 # 10) "" "Protection of life";
                           sample "doc2" (1 # 2) "" "Right to equality"];
         Chat.RespMatches [sample "doc1" (9 # 10) "" "Protection of life"]].

(** The same run, followed by a synthesis call that times out. *)
Definition sample_failed_synthesis : Chat.state :=
  fresh (Chat.pending sample_retrieval ++ [Chat.RespError (lit "timeout")]).

(** Three short chunks of the criminal-law index; each formats to the
    18-character snippet ["[CRIMINAL] Murder."]. *)
Definition short_pool : list Chat.Match :=
  [sample "c1" (9 # 10) "criminal" "Murder.";
   sample "c2" (8 # 10) "criminal" "Murder.";
   sample "c3" (7 # 10) "criminal" "Murder."].

(** A pool whose order is not the order of the scores. *)
Definition mixed_pool : list Chat.Match :=
  [sample "c1" (1 # 2) "criminal" "Whoever commits murder";
   sample "c2" (9 # 10) "constitution" "Protection of life";
   sample "c3" (7 # 10) "criminal" "Culpable homicide"].

(** Five chunks whose snippets are 1600 characters long each, the pool size
    and the budget [answer_question] works with. *)
Definition long_pool : list Chat.Match :=
  map (fun i : string =>
         {| Chat.id := lit i; Chat.score := (1 # 2)%Q;
            Chat.metadata :=
              {| Chat.text := Some (repeat 120%N 1589);
                 Chat.index_source := Some (lit "criminal");
                 Chat.fields := [] |} |})
    ["c1"; "c2"; "c3"; "c4"; "c5"]%string.

(** A reply of the expansion call that opens with a heading line before the
    three variations. *)
Definition expansion_reply : str :=
  lit "Here are the variations:" ++ Chat.nl
  ++ lit "1. Can I get out of jail before trial?" ++ Chat.nl
  ++ lit "2. What are the statutory provisions governing bail?" ++ Chat.nl
  ++ lit "3. How does Indian law define bail?".

(** A chunk that refers to a schedule, and a run of the cross-link expander
    on it: the schedule is embedded, the constitution index returns the
    chunk itself again and the schedule, the criminal index fails. *)
Definition linked_chunk : Chat.Match :=
  {| Chat.id := lit "c1"; Chat.score := (9 # 10)%Q;
     Chat.metadata :=
       {| Chat.text := Some (lit "Distribution of legislative powers");
          Chat.index_source := Some (lit "constitution");
          Chat.fields := [(lit "schedule", VStr (lit "Seventh Schedule"));
                          (lit "part", VStr (lit "XI"))] |} |}.

Definition sample_links : Chat.state :=
  fresh [Chat.RespVector [1 # 2]%Q;
         Chat.RespMatches [sample "c1" (1 # 2) "" "A copy";
                           sample "s7" (8 # 10) "" "Union List"];
         Chat.RespError (lit "timeout")].

Definition ascii_lower (s : str) : str :=
  map (fun c => if ((65 <=? c) && (c <=? 90))%N then (c + 32)%N else c) s.

(** A small act: a preamble and one chapter with one section that has a
    defined term, an empty clause and an explanation. *)
Definition sample_act : value :=
  VDict
    [(lit "act_title", VStr (lit "Indian Penal Code"));
     (lit "act_number", VStr (lit "45"));
     (lit "preamble", VStr (lit "Whereas it is expedient"));
     (lit "chapters",
      VList
        [VDict
           [(lit "chapter_number", VInt 16);
            (lit "chapter_title", VStr (lit "Offences"));
            (lit "sections",
             VList
               [VDict
                  [(lit "section_number", VInt 302);
                   (lit "section_title", VStr (lit "Punishment for murder"));
                   (lit "text", VStr (lit "Whoever commits murder shall be punished."));
                   (lit "sub_sections",
                    VList [VDict [(lit "sub_section_number", VStr (lit "(1)"));
                                  (lit "term", VStr (lit "murder"));
                                  (lit "definition", VStr (lit "culpable homicide"))]]);
                   (lit "clauses",
                    VList [VDict [(lit "clause_label", VStr (lit "a"));
                                  (lit "text", VStr [])]]);
                   (lit "explanations",
                    VList [VDict [(lit "explanation_number", VInt 1);
                                  (lit "content", VStr (lit "An explanation."))]])]])]])].

(** A splitter that cuts a text longer than 40 characters in two. *)
Definition sample_split (s : str) : list str :=
  if (40 <? length s)%nat then [take 40 s; drop 40 s] else [s].

(** An act without chapters and without preamble. *)
Definition sample_bad_act : value :=
  VDict [(lit "act_title", VStr (lit "Indian Penal Code"))].

(* ===================================================================== *)
(** * Vocabulary of the statements                                        *)
(* ===================================================================== *)

Module Spec.

Import Chat.

(** The id under which an entry is upserted. *)
Definition entry_id (e : Ingest.entry) : str := e.1.1.

(** The batch [upsert_to_pinecone] prepares at start position [i]. *)
Definition batch_of (filename : str) (metadatas : list (dict value))
  (batch_size : nat) (embeddings : list Ingest.vector) (i : nat)
  : result (list Ingest.entry) :=
  Ingest.prepare_batch filename metadatas (take batch_size (drop i metadatas))
    i 0 (take batch_size (drop i embeddings)).

(** The matches a logged call returned, tagged with the index they came
    from: those of a successful index query, none for any other call. *)
Definition returned (logged : call * response) : list Match :=
  match logged with
  | (CallQuery name _ _, RespMatches ms) => map (tag_source name) ms
  | _ => []
  end.

(** Everything the indexes returned between two states, in arrival order. *)
Definition received (s s' : state) : list Match :=
  flat_map returned (drop (length (calls s)) (calls s')).

(** [m] is the entry of the stream that survives deduplication: it occurs in
    the stream, no entry with its id has a higher score, and it is the first
    with that score. *)
Definition survivor (stream : list Match) (m : Match) : Prop :=
  exists before after,
    stream = before ++ m :: after
    /\ (forall x, x ∈ before -> id x = id m -> (score x < score m)%Q)
    /\ (forall x, x ∈ after -> id x = id m -> (score x <= score m)%Q).

(** [merge_match] on a match that is tagged already. *)
Definition merge_tagged (expanded_matches : dict Match) (m : Match)
  : dict Match :=
  match dict_get (id m) expanded_matches with
  | None => dict_set (id m) m expanded_matches
  | Some old =>
      if score_gt (score m) (score old)
      then dict_set (id m) m expanded_matches
      else expanded_matches
  end.

(** What the merged map holds after the stream [l] went through it. *)
Definition merged (d : dict Match) (l : list Match) : Prop :=
  NoDup (dict_keys d)
  /\ (forall k m, (k, m) ∈ d -> id m = k /\ survivor l m)
  /\ (forall x, x ∈ l -> id x ∈ dict_keys d).

(** [picked] lists elements of [pool] taken at pairwise distinct positions. *)
Definition distinct_picks {A} (pool picked : list A) : Prop :=
  exists positions : list nat,
    NoDup positions
    /\ Forall2 (fun i c => pool !! i = Some c) positions picked.

(** The next completion call fails: its outcome is not a completion text. *)
Definition completion_fails (s : state) : Prop :=
  match pending s with
  | RespText _ :: _ => False
  | _ => True
  end.

(** Descending order of scores: [a] may come before [b]. *)
Definition desc (a b : Match) : Prop := (score b <= score a)%Q.

(** Selected indices that are pairwise distinct and inside a pool of [n]. *)
Definition well_selected (n : Z) (selected : list Z) : Prop :=
  NoDup selected /\ Forall (fun i => 0 <= i < n) selected.

(** [list(set(xs))] lists the distinct elements of [xs], each once. *)
Definition set_order_ok (rt : runtime) : Prop :=
  forall xs, NoDup (set_order rt xs)
             /\ (forall x, x ∈ set_order rt xs <-> x ∈ xs).

(** Total length of a list of strings. *)
Definition total_len (parts : list str) : Z :=
  fold_right (fun p acc => len p + acc) 0 parts.

End Spec.
Import Spec.

(** ** Vocabulary of the further properties *)

Module Spec2.

Import Normalize.

(** The texts an embedding call embedded: its batch when it succeeded. *)
Definition answered (c : list str * option (list Ingest.vector)) : list str :=
  match c.2 with
  | Some _ => c.1
  | None => []
  end.

(** The vectors an embedding call returned. *)
Definition vectors_of (c : list str * option (list Ingest.vector))
  : list Ingest.vector :=
  default [] c.2.

(** The calls made between two states of the embedding service. *)
Definition new_calls (s s' : embed_state)
  : list (list str * option (list Ingest.vector)) :=
  drop (length (embed_calls s)) (embed_calls s').

(** A value the vector index accepts: a string, a number, a boolean or a
    list of strings. *)
Definition safe_value (v : value) : Prop :=
  match v with
  | VStr _ | VInt _ | VFloat _ | VBool _ => True
  | VList l => forallb Ingest.is_str l = true
  | VNone | VDict _ => False
  end.

Definition doc_kinds : list str :=
  [lit "preamble"; lit "section"; lit "subsection"; lit "clause";
   lit "explanation"].

Definition file_kinds : list str :=
  [lit "amendment"; lit "schedule"; lit "footnote"; lit "main"; lit "misc"].

(** A document as the structural pass emits it: unique keys, a non-empty
    string text and one of the five kinds. *)
Definition structural_ok (d : doc) : Prop :=
  NoDup (dict_keys d)
  /\ (exists t, dict_get (lit "text") d = Some (VStr t) /\ truthy t = true)
  /\ (exists k, k ∈ doc_kinds /\ dict_get (lit "doc_type") d = Some (VStr k)).

(** The bookkeeping of a chunk. *)
Definition chunk_ok (d : doc) : Prop :=
  NoDup (dict_keys d)
  /\ (exists t, dict_get (lit "text") d = Some (VStr t))
  /\ (exists k, k ∈ doc_kinds /\ dict_get (lit "doc_type") d = Some (VStr k))
  /\ (exists i n b kw,
        dict_get (lit "chunk_index") d = Some (VInt i)
        /\ dict_get (lit "total_chunks") d = Some (VInt n)
        /\ 0 <= i < n
        /\ dict_get (lit "is_chunked") d = Some (VBool b)
        /\ dict_get (lit "keywords") d = Some (VStr kw)).

(** A map of matches whose keys are unique and are the ids of its entries. *)
Definition keyed (d : dict Chat.Match) : Prop :=
  NoDup (dict_keys d) /\ forall k m, (k, m) ∈ d -> Chat.id m = k.

(** The transcript and the session file are the same in both states. *)
Definition same_transcript (s s' : Chat.state) : Prop :=
  Chat.chat_history s' = Chat.chat_history s
  /\ Chat.session_file s' = Chat.session_file s.

(** The calls logged between two states. *)
Definition calls_between (s s' : Chat.state) : list (Chat.call * Chat.response) :=
  drop (length (Chat.calls s)) (Chat.calls s').

(** From [s] to [s'] the calls of [tr] were logged, and nothing else of
    the state changed but the pending outcomes. *)
Definition extends (s s' : Chat.state) (tr : list (Chat.call * Chat.response))
  : Prop :=
  Chat.calls s' = Chat.calls s ++ tr /\ same_transcript s s'.

(** A match tagged with one of the two indexes. *)
Definition tagged (m : Chat.Match) : Prop :=
  exists name, name ∈ Chat.indexes
               /\ Chat.index_source (Chat.metadata m) = Some name.

(** A merge dictionary all of whose matches are tagged. *)
Definition all_tagged (d : dict Chat.Match) : Prop :=
  forall k m, (k, m) ∈ d -> tagged m.

(** The snippet [build_context] formats for a chunk, and the snippets of the
    chunks whose text is not blank. *)
Definition snippet_of (rt : runtime) (c : Chat.Match) : str :=
  lit "["
  ++ str_upper rt (default (lit "unknown") (Chat.index_source (Chat.metadata c)))
  ++ lit "] " ++ default [] (Chat.text (Chat.metadata c)).

Definition has_text (c : Chat.Match) : bool :=
  truthy (strip (default [] (Chat.text (Chat.metadata c)))).

Definition snippets (rt : runtime) (chunks : list Chat.Match) : list str :=
  map (snippet_of rt) (List.filter has_text chunks).

End Spec2.
Import Spec2.

(* ===================================================================== *)
(** * Facts about the Python operations                                   *)
(* ===================================================================== *)

Lemma str_eqb_eq (a b : str) : str_eqb a b = true <-> a = b.
Proof.
  revert b. induction a as [|x a IH]; intros [|y b]; simpl; split;
    try congruence; try done.
  - intros [Hx Hab]%andb_true_iff. apply N.eqb_eq in Hx.
    apply IH in Hab. congruence.
  - intros [= -> ->]. rewrite N.eqb_refl. simpl. by apply IH.
Qed.

Lemma str_eqb_refl (a : str) : str_eqb a a = true.
Proof. by apply str_eqb_eq. Qed.

Lemma str_eqb_neq (a b : str) : a <> b -> str_eqb a b = false.
Proof.
  intros Hne. destruct (str_eqb a b) eqn:E; [|done].
  by apply str_eqb_eq in E.
Qed.

Section DictFacts.

Context {V : Type}.
Implicit Types (d : dict V) (k : str) (v : V).

Lemma dict_get_set_eq k v d : dict_get k (dict_set k v d) = Some v.
Proof.
  induction d as [|[k' v'] d IH]; simpl.
  - by rewrite str_eqb_refl.
  - destruct (str_eqb k k') eqn:E; simpl; rewrite E; done.
Qed.

Lemma dict_get_set_ne k k' v d :
  k <> k' -> dict_get k' (dict_set k v d) = dict_get k' d.
Proof.
  intros Hne. induction d as [|[k0 v0] d IH]; simpl.
  - rewrite str_eqb_neq; [done | congruence].
  - destruct (str_eqb k k0) eqn:E; simpl.
    + apply str_eqb_eq in E as <-.
      rewrite !(str_eqb_neq k' k); [done | congruence].
    + by rewrite IH.
Qed.

Lemma dict_get_None k d : k ∉ dict_keys d <-> dict_get k d = None.
Proof.
  induction d as [|[k0 v0] d IH]; simpl.
  - split; [done | intros _ H; inversion H].
  - rewrite not_elem_of_cons. destruct (str_eqb k k0) eqn:E.
    + apply str_eqb_eq in E. split; [intros [? _]; done | done].
    + rewrite <- IH. split; [tauto|]. intros H. split; [|done].
      intros ->. by rewrite str_eqb_refl in E.
Qed.

Lemma dict_get_Some k v d : dict_get k d = Some v -> (k, v) ∈ d.
Proof.
  induction d as [|[k0 v0] d IH]; simpl; [done|].
  destruct (str_eqb k k0) eqn:E.
  - apply str_eqb_eq in E as ->. intros [= ->]. left.
  - intros H. right. by apply IH.
Qed.

Lemma dict_keys_set k v d :
  dict_keys (dict_set k v d)
  = match dict_get k d with
    | Some _ => dict_keys d
    | None => dict_keys d ++ [k]
    end.
Proof.
  induction d as [|[k0 v0] d IH]; simpl; [done|].
  destruct (str_eqb k k0) eqn:E; simpl; [done|].
  rewrite IH. by destruct (dict_get k d).
Qed.

Lemma dict_set_NoDup k v d :
  NoDup (dict_keys d) -> NoDup (dict_keys (dict_set k v d)).
Proof.
  intros Hnd. rewrite dict_keys_set.
  destruct (dict_get k d) eqn:E; [done|].
  apply NoDup_app. split; [done|]. split; [|apply NoDup_singleton].
  intros x Hx ->%list_elem_of_singleton. by apply dict_get_None in E.
Qed.

(** With unique keys, an assignment changes the binding of its key only. *)
Lemma dict_set_elem k v k' v' d :
  NoDup (dict_keys d) ->
  (k', v') ∈ dict_set k v d ->
  (k' = k /\ v' = v) \/ (k' <> k /\ (k', v') ∈ d).
Proof.
  induction d as [|[k0 v0] d IH]; simpl.
  - intros _ [= -> ->]%list_elem_of_singleton. by left.
  - intros Hnd. apply NoDup_cons in Hnd as [Hk0 Hnd].
    destruct (str_eqb k k0) eqn:E.
    + apply str_eqb_eq in E as <-.
      intros [[= -> ->] | Hin]%elem_of_cons; [by left|].
      right. split; [|by right].
      intros ->. apply Hk0. unfold dict_keys.
      apply list_elem_of_fmap. by exists (k, v').
    + intros [[= -> ->] | Hin]%elem_of_cons.
      * right. split; [|left]. intros ->. by rewrite str_eqb_refl in E.
      * destruct (IH Hnd Hin) as [?|[? ?]]; [by left|].
        right. split; [done | by right].
Qed.

End DictFacts.

Lemma lstrip_by_all (p : N -> bool) (s : str) :
  Forall (fun c => p c = true) s -> lstrip_by p s = [].
Proof. induction 1 as [|c s Hc _ IH]; simpl; [done | by rewrite Hc]. Qed.

Lemma strip_blank (s : str) :
  Forall (fun c => is_space c = true) s -> strip s = [].
Proof.
  intros H. unfold strip, strip_by. by rewrite (lstrip_by_all _ _ H).
Qed.

Lemma slice_to_all {A} (n : Z) (xs : list A) :
  len xs <= n -> slice_to n xs = xs.
Proof.
  unfold slice_to, len. intros H.
  destruct (0 <=? n) eqn:E; [|lia]. apply take_ge. lia.
Qed.

Lemma slice_to_take {A} (n : Z) (xs : list A) :
  0 <= n -> slice_to n xs = take (Z.to_nat n) xs.
Proof. unfold slice_to. intros H. destruct (0 <=? n) eqn:E; [done | lia]. Qed.

(* ===================================================================== *)
(** * Metadata sanitization                                               *)
(* ===================================================================== *)

Section SanitizeFacts.

Import Ingest.
Variable rt : runtime.

(** What the loop leaves under a key that occurs once among the items. *)
Lemma sanitize_loop_get (k : str) (items : list (str * value)) (safe : dict value) :
  NoDup (dict_keys items) ->
  dict_get k (sanitize_loop rt items safe)
  = match dict_get k items with
    | Some v =>
        match sanitize_value rt v with
        | Some v' => Some v'
        | None => dict_get k safe
        end
    | None => dict_get k safe
    end.
Proof.
  revert safe. induction items as [|[k0 v0] items IH]; intros safe; simpl; [done|].
  intros [Hk0 Hnd]%NoDup_cons. rewrite IH by done.
  destruct (str_eqb k k0) eqn:E.
  - apply str_eqb_eq in E as ->.
    apply dict_get_None in Hk0. rewrite Hk0.
    destruct (sanitize_value rt v0); [apply dict_get_set_eq | done].
  - assert (k0 <> k) by (intros ->; by rewrite str_eqb_refl in E).
    assert (dict_get k
              (match sanitize_value rt v0 with
               | Some v' => dict_set k0 v' safe
               | None => safe
               end) = dict_get k safe) as ->.
    { destruct (sanitize_value rt v0); [by apply dict_get_set_ne | done]. }
    done.
Qed.

End SanitizeFacts.

(** C8. [sanitize_metadata] drops every key whose value is [None], stores
    every nested mapping as the string that joins its [key:value] pairs with
    [" | "], and leaves no [None] and no mapping among the stored values; the
    mapping [{"a": 1, "b": 2}] is stored as ["a:1 | b:2"]. *)
Theorem sanitize_metadata_flattens_and_drops (rt : runtime) (meta : dict value) :
  NoDup (dict_keys meta) ->
  (forall k, dict_get k meta = Some VNone ->
             dict_get k (Ingest.sanitize_metadata rt meta) = None)
  /\ (forall k d, dict_get k meta = Some (VDict d) ->
                  dict_get k (Ingest.sanitize_metadata rt meta)
                  = Some (VStr (Ingest.flatten_dict rt d)))
  /\ (forall k v, dict_get k (Ingest.sanitize_metadata rt meta) = Some v ->
                  v <> VNone /\ forall d, v <> VDict d)
  /\ Ingest.flatten_dict rt [(lit "a", VInt 1); (lit "b", VInt 2)]
     = lit "a:1 | b:2".
Proof.
  intros Hnd. unfold Ingest.sanitize_metadata.
  split; [|split; [|split]].
  - intros k Hk. rewrite sanitize_loop_get by done. by rewrite Hk.
  - intros k d Hk. rewrite sanitize_loop_get by done. by rewrite Hk.
  - intros k v Hv. rewrite sanitize_loop_get in Hv by done.
    destruct (dict_get k meta) as [v0|]; [|done].
    destruct v0 as [| | | | |l|d0]; simpl in Hv; try (split; congruence).
    destruct (forallb _ l); split; congruence.
  - reflexivity.
Qed.

Lemma sanitize_metadata_flattens_and_drops_witness :
  let meta :=
    [(lit "details", VDict [(lit "a", VInt 1); (lit "b", VInt 2)]);
     (lit "section_title", VStr (lit "Murder"));
     (lit "sub_section_number", VNone)] in
  NoDup (dict_keys meta)
  /\ dict_get (lit "sub_section_number")
       (Ingest.sanitize_metadata ascii_runtime meta) = None
  /\ dict_get (lit "details") (Ingest.sanitize_metadata ascii_runtime meta)
     = Some (VStr (lit "a:1 | b:2")).
Proof.
  intros meta.
  assert (Hnd : NoDup (dict_keys meta))
    by (apply (bool_decide_unpack _); vm_compute; reflexivity).
  destruct (sanitize_metadata_flattens_and_drops ascii_runtime meta Hnd)
    as (Hnone & Hdict & _ & _).
  split; [exact Hnd|]. split.
  - apply Hnone. reflexivity.
  - apply (Hdict _ [(lit "a", VInt 1); (lit "b", VInt 2)]). reflexivity.
Defined.

(* ===================================================================== *)
(** * Empty questions and the pass-through of the reranker                *)
(* ===================================================================== *)

(** C6. A question that is empty or made of whitespace only gets the fixed
    answer, and the state is left as it was: no service call is made (the
    call log is unchanged and no pending outcome is consumed). *)
Theorem answer_question_blank (rt : runtime) (question : str) (s : Chat.state) :
  Forall (fun c => is_space c = true) question ->
  Chat.answer_question rt question s
  = (Ok (lit "Please provide a valid question."), s).
Proof.
  intros Hblank. unfold Chat.answer_question.
  by rewrite (strip_blank _ Hblank).
Qed.

Lemma answer_question_blank_witness :
  let s := {| Chat.pending := [Chat.RespText (lit "unused")];
              Chat.calls := []; Chat.chat_history := [];
              Chat.session_file := None |} in
  Forall (fun c => is_space c = true) (lit "   ")
  /\ Chat.answer_question ascii_runtime (lit "   ") s
     = (Ok (lit "Please provide a valid question."), s).
Proof.
  intros s.
  assert (H : Forall (fun c => is_space c = true) (lit "   "))
    by (repeat constructor).
  split; [exact H | exact (answer_question_blank ascii_runtime _ s H)].
Defined.

(** C3. A pool of at most [top_k] chunks comes back as it is, in the same
    order, and the state is unchanged: no language-model call is made. *)
Theorem rerank_chunks_pass_through (rt : runtime) (question : str)
  (chunks : list Chat.Match) (top_k : Z) (s : Chat.state) :
  len chunks <= top_k ->
  Chat.rerank_chunks rt question chunks top_k s = (Ok chunks, s).
Proof.
  intros Hle. unfold Chat.rerank_chunks.
  destruct chunks as [|c chunks]; [done|].
  destruct (len (c :: chunks) <=? top_k) eqn:E; [|lia].
  by rewrite slice_to_all.
Qed.

Lemma rerank_chunks_pass_through_witness :
  let pool := [sample "c1" (7 # 10) "criminal" "Whoever commits murder";
               sample "c2" (9 # 10) "constitution" "Protection of life"] in
  len pool <= 5
  /\ Chat.rerank_chunks ascii_runtime (lit "What is murder?") pool 5
       (fresh [Chat.RespText (lit "1, 0")])
     = (Ok pool, fresh [Chat.RespText (lit "1, 0")]).
Proof.
  intros pool.
  assert (H : len pool <= 5) by (vm_compute; discriminate).
  split; [exact H|].
  exact (rerank_chunks_pass_through ascii_runtime _ pool 5 _ H).
Defined.

(* ===================================================================== *)
(** * Chunk ids and re-ingestion                                          *)
(* ===================================================================== *)

Section UpsertFacts.

Import Ingest.

Lemma store_batch_dom (vectors : list entry) (m : gmap str (vector * dict value)) :
  dom (store_batch vectors m) = dom m ∪ list_to_set (map entry_id vectors).
Proof.
  unfold store_batch. revert m.
  induction vectors as [|e vectors IH]; intros m; simpl.
  - by rewrite (right_id_L ∅ (∪)).
  - rewrite IH, dom_insert_L. unfold entry_id.
    by rewrite (comm_L (∪) {[e.1.1]} (dom m)), <- (assoc_L (∪)).
Qed.

(** The ids of a batch depend on the number of embeddings only. *)
Lemma prepare_batch_ids filename metadatas batch_metadatas i j
  (e1 e2 : list vector) (vs1 : list entry) :
  length e1 = length e2 ->
  prepare_batch filename metadatas batch_metadatas i j e1 = Ok vs1 ->
  exists vs2,
    prepare_batch filename metadatas batch_metadatas i j e2 = Ok vs2
    /\ map entry_id vs2 = map entry_id vs1.
Proof.
  revert j e2 vs1. induction e1 as [|v1 e1 IH]; intros j [|v2 e2] vs1 Hlen;
    simpl in *; try discriminate.
  - intros [= <-]. by exists [].
  - destruct (metadatas !! (i + j)%nat) as [m|]; simpl; [|done].
    destruct (meta_text m) as [text|]; simpl; [|done].
    destruct (generate_doc_id filename _ text) as [_id|]; simpl; [|done].
    destruct (batch_metadatas !! j) as [bm|]; simpl; [|done].
    destruct (prepare_batch _ _ _ _ (S j) e1) as [vs|] eqn:E1; simpl; [|done].
    intros [= <-].
    destruct (IH (S j) e2 vs) as (vs2 & -> & Hids); [lia | done |].
    simpl. exists ((_id, v2, bm) :: vs2). split; [done|].
    simpl. by rewrite Hids.
Qed.

Lemma index_upsert_store vectors s r s' :
  index_upsert vectors s = (r, s') ->
  match r with
  | Ok _ => store s' = store_batch vectors (store s)
  | Raise _ => store s' = store s
  end.
Proof.
  unfold index_upsert. destruct (attempts s) as [|[|] rest]; intros [= <- <-]; done.
Qed.

Lemma upsert_attempts_store range vectors s r s' :
  upsert_attempts range vectors s = (r, s') ->
  store s' = store s \/ (r = Ok tt /\ store s' = store_batch vectors (store s)).
Proof.
  revert s. induction range as [|attempt range IH]; intros s; simpl.
  - intros [= <- <-]. by left.
  - destruct (index_upsert vectors s) as [[[]|e] s1] eqn:E;
      apply index_upsert_store in E.
    + intros [= <- <-]. by right.
    + destruct (_ <? _)%nat.
      * intros H. apply IH in H. by rewrite E in H.
      * intros [= <- <-]. by left.
Qed.

(** The last attempt of the three re-raises, so the loop only ends normally
    after an upsert that went through. *)
Lemma upsert_attempts_ok vectors s s' :
  upsert_attempts (seq 0 MAX_RETRIES) vectors s = (Ok tt, s') ->
  store s' = store_batch vectors (store s).
Proof.
  simpl.
  destruct (index_upsert vectors s) as [[[]|e1] s1] eqn:E1;
    apply index_upsert_store in E1; [by intros [= <-]|].
  destruct (index_upsert vectors s1) as [[[]|e2] s2] eqn:E2;
    apply index_upsert_store in E2; [intros [= <-]; congruence|].
  destruct (index_upsert vectors s2) as [[[]|e3] s3] eqn:E3;
    apply index_upsert_store in E3; [intros [= <-]; congruence|].
  discriminate.
Qed.

Lemma upsert_batches_cons i starts embeddings metadatas filename batch_size s :
  upsert_batches (i :: starts) embeddings metadatas filename batch_size s
  = match batch_of filename metadatas batch_size embeddings i with
    | Raise e => (Raise e, s)
    | Ok vectors =>
        match upsert_attempts (seq 0 MAX_RETRIES) vectors s with
        | (Ok _, s') =>
            upsert_batches starts embeddings metadatas filename batch_size s'
        | (Raise e, s') => (Raise e, s')
        end
    end.
Proof. reflexivity. Qed.

(** After a run that ended normally, the ids of every batch are stored. *)
Lemma upsert_batches_ok_dom starts embeddings metadatas filename batch_size s s' :
  upsert_batches starts embeddings metadatas filename batch_size s = (Ok tt, s') ->
  dom (store s) ⊆ dom (store s')
  /\ forall i vs, i ∈ starts ->
       batch_of filename metadatas batch_size embeddings i = Ok vs ->
       list_to_set (map entry_id vs) ⊆ dom (store s').
Proof.
  revert s. induction starts as [|i0 starts IH]; intros s.
  - intros [= <-]. split; [done|]. intros i vs Hi. inversion Hi.
  - rewrite upsert_batches_cons.
    destruct (batch_of _ _ _ _ i0) as [vectors|] eqn:Eb; [|done].
    destruct (upsert_attempts _ vectors s) as [[[]|e] s1] eqn:Eu; [|done].
    apply upsert_attempts_ok in Eu. intros Hrest.
    destruct (IH _ Hrest) as [Hsub Hall].
    assert (Hdom1 : dom (store s1)
                    = dom (store s) ∪ list_to_set (map entry_id vectors))
      by (rewrite Eu; apply store_batch_dom).
    split.
    + intros x Hx. apply Hsub. rewrite Hdom1. by apply elem_of_union_l.
    + intros i vs [->|Hi]%elem_of_cons Hvs.
      * assert (vs = vectors) as -> by congruence.
        intros x Hx. apply Hsub. rewrite Hdom1. by apply elem_of_union_r.
      * by apply (Hall i).
Qed.

(** A run over batches whose ids are all stored already leaves the set of
    stored ids as it is, however the run ends. *)
Lemma upsert_batches_same_dom starts embeddings metadatas filename batch_size s r s' :
  (forall i vs, i ∈ starts ->
     batch_of filename metadatas batch_size embeddings i = Ok vs ->
     list_to_set (map entry_id vs) ⊆ dom (store s)) ->
  upsert_batches starts embeddings metadatas filename batch_size s = (r, s') ->
  dom (store s') = dom (store s).
Proof.
  revert s. induction starts as [|i0 starts IH]; intros s Hall.
  - by intros [= <- <-].
  - rewrite upsert_batches_cons.
    destruct (batch_of _ _ _ _ i0) as [vectors|] eqn:Eb; [|by intros [= <- <-]].
    assert (Hin : list_to_set (map entry_id vectors) ⊆ dom (store s))
      by (apply (Hall i0); [left | done]).
    destruct (upsert_attempts _ vectors s) as [r1 s1] eqn:Eu.
    assert (Hdom1 : dom (store s1) = dom (store s)).
    { apply upsert_attempts_store in Eu as [->|[_ ->]]; [done|].
      rewrite store_batch_dom. apply (anti_symm (⊆)).
      - by apply union_least.
      - apply union_subseteq_l. }
    destruct r1 as [[]|e]; [|by intros [= <- <-]].
    intros Hrest. rewrite <- Hdom1. apply (IH s1); [|done].
    intros i vs Hi Hvs. rewrite Hdom1. apply (Hall i); [by right | done].
Qed.

End UpsertFacts.

(** C7. The chunk id depends on the text through its content hash only, so
    it is a function of (filename, position, content hash); ingesting the
    same documents again, whatever the new embeddings and however the second
    run's upserts go, stores no new id: the second run writes under the ids
    of the first. *)
Theorem chunk_ids_idempotent :
  (forall filename index t1 t2,
     Ingest.content_hash t1 = Ingest.content_hash t2 ->
     Ingest.generate_doc_id filename index t1
     = Ingest.generate_doc_id filename index t2)
  /\ (forall filename metadatas (e1 e2 : list Ingest.vector) batch_size
        s0 s1 outcomes r2 s2,
        length e1 = length e2 ->
        Ingest.upsert_to_pinecone e1 metadatas filename batch_size s0
        = (Ok tt, s1) ->
        Ingest.upsert_to_pinecone e2 metadatas filename batch_size
          {| Ingest.store := Ingest.store s1; Ingest.attempts := outcomes |}
        = (r2, s2) ->
        dom (Ingest.store s2) = dom (Ingest.store s1)).
Proof.
  split.
  - intros filename index t1 t2 Hh. unfold Ingest.generate_doc_id.
    by rewrite Hh.
  - intros filename metadatas e1 e2 batch_size s0 s1 outcomes r2 s2 Hlen.
    unfold Ingest.upsert_to_pinecone.
    destruct batch_size as [|b]; [done|]. set (bs := S b).
    intros H1 H2. rewrite <- Hlen in H2.
    apply upsert_batches_ok_dom in H1 as [_ Hall].
    apply upsert_batches_same_dom in H2; [done|]. simpl.
    intros i vs2 Hi Hvs2. unfold batch_of in Hvs2.
    destruct (prepare_batch_ids filename metadatas
                (take bs (drop i metadatas)) i 0
                (take bs (drop i e2)) (take bs (drop i e1)) vs2)
      as (vs1 & Hvs1 & Hids); [|done|].
    { rewrite !length_take, !length_drop. lia. }
    rewrite <- Hids. by apply (Hall i).
Qed.

Lemma chunk_ids_idempotent_witness :
  let first :=
    Ingest.upsert_to_pinecone [[1 # 2]; [1 # 3]]%Q sample_metadatas
      (lit "ipc.json") 100
      {| Ingest.store := ∅; Ingest.attempts := [false; true] |} in
  let second :=
    Ingest.upsert_to_pinecone [[1 # 5]; [1 # 7]]%Q sample_metadatas
      (lit "ipc.json") 100
      {| Ingest.store := Ingest.store first.2; Ingest.attempts := [true] |} in
  first.1 = Ok tt
  /\ dom (Ingest.store second.2) = dom (Ingest.store first.2)
  /\ Ingest.generate_doc_id (lit "ipc.json") 1 (lit "abc")
     = Ingest.generate_doc_id (lit "ipc.json") 1 (lit "abc").
Proof.
  intros first second.
  destruct chunk_ids_idempotent as [Hid Hdom].
  assert (H1 : first = (Ok tt, first.2)) by (vm_compute; reflexivity).
  split; [vm_compute; reflexivity|]. split.
  - refine (Hdom (lit "ipc.json") sample_metadatas
              [[1 # 2]; [1 # 3]]%Q [[1 # 5]; [1 # 7]]%Q 100%nat
              {| Ingest.store := ∅; Ingest.attempts := [false; true] |}
              first.2 [true] second.1 second.2 _ H1 _).
    + vm_compute; reflexivity.
    + apply surjective_pairing.
  - apply Hid. reflexivity.
Defined.

(* ===================================================================== *)
(** * Deduplication in the multi-index retriever                          *)
(* ===================================================================== *)

Section RetrieveFacts.

Import Chat.

Lemma score_gt_lt (a b : Q) : score_gt a b = true <-> (b < a)%Q.
Proof.
  unfold score_gt. rewrite negb_true_iff, <- not_true_iff_false, Qle_bool_iff.
  split; [apply Qnot_le_lt | apply Qlt_not_le].
Qed.

Lemma score_gt_le (a b : Q) : score_gt a b = false <-> (a <= b)%Q.
Proof. unfold score_gt. rewrite negb_false_iff. apply Qle_bool_iff. Qed.

Lemma merge_match_tagged name d m :
  merge_match name d m = merge_tagged d (tag_source name m).
Proof. reflexivity. Qed.

Lemma fold_merge_match name ms d :
  fold_left (merge_match name) ms d
  = fold_left merge_tagged (map (tag_source name) ms) d.
Proof. revert d. induction ms as [|m ms IH]; intros d; simpl; [done | apply IH]. Qed.

(** An entry of another id stays the survivor when a match arrives. *)
Lemma survivor_snoc_other l m x :
  id x <> id m -> survivor l m -> survivor (l ++ [x]) m.
Proof.
  intros Hne (before & after & -> & Hb & Ha).
  exists before, (after ++ [x]). split; [by rewrite <- app_assoc|].
  split; [done|].
  intros y [Hy | ->%list_elem_of_singleton]%elem_of_app; [by apply Ha | done].
Qed.

(** A later match that does not beat the survivor leaves it in place. *)
Lemma survivor_snoc_keep l m x :
  (score x <= score m)%Q -> survivor l m -> survivor (l ++ [x]) m.
Proof.
  intros Hle (before & after & -> & Hb & Ha).
  exists before, (after ++ [x]). split; [by rewrite <- app_assoc|].
  split; [done|].
  intros y [Hy | ->%list_elem_of_singleton]%elem_of_app; [by apply Ha | done].
Qed.

(** A later match that beats the survivor of its id replaces it. *)
Lemma survivor_snoc_beat l m x :
  id x = id m -> (score m < score x)%Q -> survivor l m -> survivor (l ++ [x]) x.
Proof.
  intros Hid Hlt (before & after & -> & Hb & Ha).
  exists (before ++ m :: after), []. split; [done|]. split.
  - intros y Hy Hyid. rewrite Hid in Hyid.
    apply elem_of_app in Hy as [Hy|[->|Hy]%elem_of_cons].
    + apply Qlt_trans with (score m); [by apply Hb | done].
    + done.
    + apply Qle_lt_trans with (score m); [by apply Ha | done].
  - intros y Hy. inversion Hy.
Qed.

Lemma merged_nil : merged [] [].
Proof.
  split; [constructor|]. split.
  - intros k m H. inversion H.
  - intros x H. inversion H.
Qed.

Lemma dict_keys_elem {V} (k : str) (d : dict V) :
  k ∈ dict_keys d <-> exists v, (k, v) ∈ d.
Proof.
  unfold dict_keys. rewrite list_elem_of_fmap. split.
  - intros [[k' v] [-> H]]. by exists v.
  - intros [v H]. by exists (k, v).
Qed.

Lemma dict_keys_set_mono {V} (k k' : str) (v : V) (d : dict V) :
  k' ∈ dict_keys d -> k' ∈ dict_keys (dict_set k v d).
Proof.
  rewrite dict_keys_set. destruct (dict_get k d); [done|].
  intros H. apply elem_of_app. by left.
Qed.

Lemma dict_keys_set_key {V} (k : str) (v : V) (d : dict V) :
  k ∈ dict_keys (dict_set k v d).
Proof.
  rewrite dict_keys_set. destruct (dict_get k d) eqn:E.
  - apply dict_keys_elem. eexists. by apply dict_get_Some.
  - apply elem_of_app. right. by apply list_elem_of_singleton.
Qed.

(** One more match through the map. *)
Lemma merged_step d l x :
  merged d l -> merged (merge_tagged d x) (l ++ [x]).
Proof.
  intros (Hnd & Hent & Hcov). unfold merge_tagged.
  destruct (dict_get (id x) d) as [old|] eqn:Eget.
  - pose proof (dict_get_Some _ _ _ Eget) as Hold.
    destruct (Hent _ _ Hold) as [Hidold Hsurv].
    destruct (score_gt (score x) (score old)) eqn:Egt.
    + apply score_gt_lt in Egt. split; [by apply dict_set_NoDup|]. split.
      * intros k m Hin.
        apply dict_set_elem in Hin as [[-> ->] | [Hne Hin]]; [| |done].
        -- split; [done|]. by apply (survivor_snoc_beat l old x).
        -- destruct (Hent _ _ Hin) as [Hk Hs]. split; [done|].
           apply survivor_snoc_other; [congruence | done].
      * intros y [Hy | ->%list_elem_of_singleton]%elem_of_app.
        -- by apply dict_keys_set_mono, Hcov.
        -- apply dict_keys_set_key.
    + apply score_gt_le in Egt. split; [done|]. split.
      * intros k m Hin. destruct (Hent _ _ Hin) as [Hk Hs]. split; [done|].
        destruct (decide (id m = id x)) as [Heq|Hne].
        -- assert (m = old) as ->.
           { assert (Hget : dict_get k d = Some old) by congruence.
             clear -Hnd Hin Hget. induction d as [|[k0 v0] d IH]; [done|].
             simpl in *. apply NoDup_cons in Hnd as [Hk0 Hnd].
             destruct (str_eqb k k0) eqn:E.
             - apply str_eqb_eq in E as ->.
               apply elem_of_cons in Hin as [[= ->]|Hin]; [congruence|].
               exfalso. apply Hk0, dict_keys_elem. by exists m.
             - apply elem_of_cons in Hin as [[= -> ->]|Hin].
               + by rewrite str_eqb_refl in E.
               + by apply IH. }
           by apply survivor_snoc_keep.
        -- apply survivor_snoc_other; [congruence | done].
      * intros y [Hy | ->%list_elem_of_singleton]%elem_of_app.
        -- by apply Hcov.
        -- apply dict_keys_elem. by exists old.
  - apply dict_get_None in Eget as Hfresh.
    split; [by apply dict_set_NoDup|]. split.
    + intros k m Hin.
      apply dict_set_elem in Hin as [[-> ->] | [Hne Hin]]; [| |done].
      * split; [done|]. exists l, []. split; [done|]. split.
        -- intros y Hy Hyid. exfalso. apply Hfresh.
           rewrite <- Hyid. by apply Hcov.
        -- intros y Hy. inversion Hy.
      * destruct (Hent _ _ Hin) as [Hk Hs]. split; [done|].
        apply survivor_snoc_other; [congruence | done].
    + intros y [Hy | ->%list_elem_of_singleton]%elem_of_app.
      * by apply dict_keys_set_mono, Hcov.
      * apply dict_keys_set_key.
Qed.

Lemma merged_fold xs d l :
  merged d l -> merged (fold_left merge_tagged xs d) (l ++ xs).
Proof.
  revert d l. induction xs as [|x xs IH]; intros d l H; simpl.
  - by rewrite app_nil_r.
  - replace (l ++ x :: xs) with ((l ++ [x]) ++ xs) by (by rewrite <- app_assoc).
    by apply IH, merged_step.
Qed.

(** The values of a merged map: one per id. *)
Lemma merged_values d l :
  merged d l ->
  NoDup (map id (dict_values d))
  /\ (forall m, m ∈ dict_values d -> survivor l m)
  /\ (forall x, x ∈ l -> exists m, m ∈ dict_values d /\ id m = id x).
Proof.
  intros (Hnd & Hent & Hcov).
  assert (Hkeys : map id (dict_values d) = dict_keys d).
  { unfold dict_values, dict_keys. rewrite map_map.
    apply map_ext_in. intros [k m] Hin. simpl.
    apply list_elem_of_In in Hin. by destruct (Hent _ _ Hin). }
  split; [by rewrite Hkeys|]. split.
  - intros m Hm. unfold dict_values in Hm.
    apply list_elem_of_fmap in Hm as [[k m'] [-> Hin]]. by apply (Hent k).
  - intros x Hx. apply Hcov, dict_keys_elem in Hx as [m Hin].
    exists m. split; [|by apply (Hent _ _ Hin)].
    unfold dict_values. apply list_elem_of_fmap. by exists (id x, m).
Qed.

End RetrieveFacts.

(* ===================================================================== *)
(** * The call log of the pipeline stages                                 *)
(* ===================================================================== *)

Section TraceFacts.

Import Chat.
Variable rt : runtime.

Lemma service_log {A} (c : call) (expect : response -> option A) s r s' :
  service c expect s = (r, s') ->
  exists resp,
    calls s' = calls s ++ [(c, resp)]
    /\ match r with
       | Ok a => expect resp = Some a
       | Raise _ => expect resp = None \/ exists e, resp = RespError e
       end.
Proof.
  unfold service. destruct (pending s) as [|resp rest].
  - intros [= <- <-]. eexists. split; [done|]. right. by eexists.
  - destruct resp as [v|ms|c0|e]; try (destruct (expect _) eqn:E);
      intros [= <- <-]; eexists; (split; [done|]); eauto.
Qed.

Lemma embed_query_log q s r s' :
  embed_query q s = (r, s') ->
  exists tr, calls s' = calls s ++ tr /\ flat_map returned tr = [].
Proof.
  intros H. apply service_log in H as (resp & Hc & _).
  by exists [(CallEmbed q, resp)].
Qed.

Lemma chat_completion_log msgs t mx tm s r s' :
  chat_completion msgs t mx tm s = (r, s') ->
  exists tr, calls s' = calls s ++ tr /\ flat_map returned tr = [].
Proof.
  intros H. apply service_log in H as (resp & Hc & _).
  by eexists [(_, resp)].
Qed.

Lemma index_query_log name qvec k s r s' :
  index_query name qvec k s = (r, s') ->
  exists tr,
    calls s' = calls s ++ tr
    /\ flat_map returned tr
       = match r with
         | Ok ms => map (tag_source name) ms
         | Raise _ => []
         end.
Proof.
  intros H. apply service_log in H as (resp & Hc & Hr).
  exists [(CallQuery name qvec k, resp)]. split; [done|].
  simpl. rewrite app_nil_r. destruct r as [ms|e].
  - destruct resp; by inversion Hr.
  - destruct Hr as [Hr | [e' ->]]; [|done]. by destruct resp.
Qed.

Lemma query_indexes_trace names qvec k d s d' ok s' :
  query_indexes names qvec k d s = ((d', ok), s') ->
  exists tr,
    calls s' = calls s ++ tr
    /\ d' = fold_left merge_tagged (flat_map returned tr) d.
Proof.
  revert d s. induction names as [|name names IH]; intros d s; simpl.
  - intros [= <- _ <-]. exists []. by rewrite app_nil_r.
  - destruct (index_query name qvec k s) as [[ms|e] s1] eqn:E;
      apply index_query_log in E as (tr1 & Hc1 & Hr1).
    + intros H. apply IH in H as (tr2 & Hc2 & ->).
      exists (tr1 ++ tr2). split; [by rewrite Hc2, Hc1, app_assoc|].
      by rewrite flat_map_app, fold_left_app, Hr1, fold_merge_match.
    + intros [= <- _ <-]. exists tr1. split; [done|]. by rewrite Hr1.
Qed.

Lemma retrieve_loop_cons q queries k d n s :
  retrieve_loop (q :: queries) k d n s
  = match embed_query q s with
    | (Raise _, s') => retrieve_loop queries k d n s'
    | (Ok qvec, s') =>
        match query_indexes indexes qvec k d s' with
        | ((d', true), s'') => retrieve_loop queries k d' (n + 1) s''
        | ((d', false), s'') => retrieve_loop queries k d' n s''
        end
    end.
Proof. reflexivity. Qed.

Lemma retrieve_loop_trace queries k d n s d' n' s' :
  retrieve_loop queries k d n s = ((d', n'), s') ->
  exists tr,
    calls s' = calls s ++ tr
    /\ d' = fold_left merge_tagged (flat_map returned tr) d.
Proof.
  revert d n s. induction queries as [|q queries IH]; intros d n s.
  - intros [= <- _ <-]. exists []. by rewrite app_nil_r.
  - rewrite retrieve_loop_cons.
    destruct (embed_query q s) as [[qvec|e] s1] eqn:E;
      apply embed_query_log in E as (tr1 & Hc1 & Hr1).
    + destruct (query_indexes indexes qvec k d s1) as [[d2 ok] s2] eqn:E2.
      apply query_indexes_trace in E2 as (tr2 & Hc2 & ->).
      intros H.
      assert (exists tr3,
                 calls s' = calls s2 ++ tr3
                 /\ d' = fold_left merge_tagged (flat_map returned tr3)
                           (fold_left merge_tagged (flat_map returned tr2) d))
        as (tr3 & Hc3 & ->) by (destruct ok; by apply IH in H).
      exists (tr1 ++ tr2 ++ tr3).
      split; [by rewrite Hc3, Hc2, Hc1, <- !app_assoc|].
      rewrite !flat_map_app, Hr1. simpl. by rewrite fold_left_app.
    + intros H. apply IH in H as (tr2 & Hc2 & ->).
      exists (tr1 ++ tr2). split; [by rewrite Hc2, Hc1, app_assoc|].
      by rewrite flat_map_app, Hr1.
Qed.

(** The query expander never raises: it answers with a list whatever the
    completion call does, and none of its calls returns matches. *)
Lemma generate_alternative_queries_total question n s :
  exists queries s' tr,
    generate_alternative_queries rt question n s = (Ok queries, s')
    /\ calls s' = calls s ++ tr /\ flat_map returned tr = [].
Proof.
  unfold generate_alternative_queries.
  destruct (negb (truthy (strip question))).
  - exists [question], s, []. by rewrite app_nil_r.
  - unfold try_catch, bind.
    destruct (chat_completion _ _ _ _ s) as [[raw|e] s1] eqn:E;
      apply chat_completion_log in E as (tr & Hc & Hr); eauto 6.
Qed.

Lemma multi_query_retrieve_total question k s :
  exists ms s', multi_query_retrieve rt question k s = (Ok ms, s').
Proof.
  unfold multi_query_retrieve.
  destruct (negb (truthy (strip question))); [by eexists _, _|].
  unfold bind.
  destruct (generate_alternative_queries_total question 3 s)
    as (queries & s1 & tr & -> & _).
  destruct (retrieve_loop queries k [] 0 s1) as [[d n] s2]. by eexists _, _.
Qed.

Lemma expand_with_links_total chunks k s :
  exists ms s', expand_with_links chunks k s = (Ok ms, s').
Proof.
  unfold expand_with_links. destruct chunks as [|c chunks]; [by eexists _, _|].
  destruct (links_loop _ _ _ s) as [d s1]. by eexists _, _.
Qed.

End TraceFacts.

(** C1. The retriever always answers with a list holding at most one match
    per document id; each match of the list is the survivor of everything
    the indexes returned during the run (no returned match of its id scores
    higher, and it is the first of that score, in arrival order), and every
    returned id is represented. *)
Theorem multi_query_retrieve_dedup (rt : runtime) (question : str) (k : Z)
  (s : Chat.state) :
  exists ms s',
    Chat.multi_query_retrieve rt question k s = (Ok ms, s')
    /\ NoDup (map Chat.id ms)
    /\ (forall m, m ∈ ms -> survivor (received s s') m)
    /\ (forall x, x ∈ received s s' ->
                  exists m, m ∈ ms /\ Chat.id m = Chat.id x).
Proof.
  unfold Chat.multi_query_retrieve.
  destruct (negb (truthy (strip question))).
  - exists [], s. split; [done|]. unfold received.
    rewrite drop_all. simpl. split; [constructor|].
    split; intros ? H; inversion H.
  - unfold Chat.bind.
    destruct (generate_alternative_queries_total rt question 3 s)
      as (queries & s1 & tr1 & -> & Hc1 & Hr1).
    destruct (Chat.retrieve_loop queries k [] 0 s1) as [[d n] s2] eqn:E.
    apply retrieve_loop_trace in E as (tr2 & Hc2 & ->).
    eexists _, s2. split; [done|].
    assert (Hrec : received s s2 = flat_map returned tr2).
    { unfold received. rewrite Hc2, Hc1, <- app_assoc, drop_app_length.
      by rewrite flat_map_app, Hr1. }
    rewrite Hrec.
    apply (merged_values _ (flat_map returned tr2)).
    apply (merged_fold _ [] []), merged_nil.
Qed.

Lemma multi_query_retrieve_dedup_witness :
  exists ms s',
    Chat.multi_query_retrieve ascii_runtime (lit "What is Article 21?") 5
      sample_retrieval = (Ok ms, s')
    /\ NoDup (map Chat.id ms)
    /\ map (fun m => (Chat.id m, Chat.score m)) ms
       = [(lit "doc1", (9 # 10)%Q); (lit "doc2", (1 # 2)%Q)].
Proof.
  destruct (multi_query_retrieve_dedup ascii_runtime
              (lit "What is Article 21?") 5 sample_retrieval)
    as (ms & s' & Hrun & Hnd & _).
  exists ms, s'. split; [exact Hrun|]. split; [exact Hnd|].
  vm_compute in Hrun. injection Hrun as <- <-. vm_compute. reflexivity.
Defined.

(* ===================================================================== *)
(** * The boundary of [answer_question]                                   *)
(* ===================================================================== *)

(** C5. Whatever the services do, [answer_question] returns a string and
    does not raise; when a stage of the pipeline raises, the answer is the
    error prefix followed by the message of the failure. *)
Theorem answer_question_never_raises (rt : runtime) (question : str)
  (s : Chat.state) :
  exists answer s',
    Chat.answer_question rt question s = (Ok answer, s')
    /\ (forall e s1,
          truthy (strip question) = true ->
          Chat.answer_pipeline rt question s = (Raise e, s1) ->
          answer = Chat.error_prefix ++ e /\ s' = s1).
Proof.
  unfold Chat.answer_question.
  destruct (truthy (strip question)); simpl.
  - unfold Chat.try_catch.
    destruct (Chat.answer_pipeline rt question s) as [[answer|e] s1].
    + exists answer, s1. split; [done|]. intros e s2 _ [=].
    + exists (Chat.error_prefix ++ e), s1. split; [done|].
      by intros e' s2 _ [= <- <-].
  - exists Chat.msg_valid_question, s. split; [done|]. by intros e s1 [=].
Qed.

Lemma answer_question_never_raises_witness :
  exists answer s',
    Chat.answer_question ascii_runtime (lit "What is Article 21?")
      sample_failed_synthesis = (Ok answer, s')
    /\ answer = Chat.error_prefix ++ lit "timeout".
Proof.
  destruct (answer_question_never_raises ascii_runtime
              (lit "What is Article 21?") sample_failed_synthesis)
    as (answer & s' & Hrun & Herr).
  exists answer, s'. split; [exact Hrun|].
  refine (proj1 (Herr (lit "timeout")
                   (snd (Chat.answer_pipeline ascii_runtime
                           (lit "What is Article 21?")
                           sample_failed_synthesis)) _ _)).
  - vm_compute. reflexivity.
  - vm_compute. reflexivity.
Defined.

(* ===================================================================== *)
(** * The reranker                                                        *)
(* ===================================================================== *)

Section RerankFacts.

Import Chat.
Variable rt : runtime.

Lemma insert_desc_perm x l : Permutation (insert_desc x l) (x :: l).
Proof.
  induction l as [|y l IH]; simpl; [done|].
  destruct (score_gt (score y) (score x)); [|done].
  rewrite IH. apply perm_swap.
Qed.

Lemma sorted_desc_perm chunks : Permutation (sorted_desc chunks) chunks.
Proof.
  induction chunks as [|c chunks IH]; simpl; [done|].
  rewrite insert_desc_perm. by constructor.
Qed.

Lemma insert_desc_sorted x l :
  StronglySorted desc l -> StronglySorted desc (insert_desc x l).
Proof.
  induction 1 as [|y l Hs IH Hall]; simpl.
  - constructor; [constructor | constructor].
  - destruct (score_gt (score y) (score x)) eqn:E.
    + apply score_gt_lt in E. constructor; [done|].
      rewrite insert_desc_perm. constructor; [|done].
      unfold desc. by apply Qlt_le_weak.
    + apply score_gt_le in E. constructor; [by constructor|].
      constructor; [done|].
      eapply Forall_impl; [exact Hall|]. intros z Hz. unfold desc in *.
      by apply Qle_trans with (score y).
Qed.

Lemma sorted_desc_sorted chunks : StronglySorted desc (sorted_desc chunks).
Proof.
  induction chunks as [|c chunks IH]; simpl; [constructor|].
  by apply insert_desc_sorted.
Qed.

Lemma chat_completion_fails msgs t mx tm s :
  completion_fails s ->
  exists e s', chat_completion msgs t mx tm s = (Raise e, s').
Proof.
  unfold completion_fails, chat_completion, service.
  destruct (pending s) as [|[v|ms|c|e] rest]; intros H;
    try done; by eexists _, _.
Qed.

Lemma mem_elem (i : Z) (l : list Z) : mem i l = true <-> i ∈ l.
Proof.
  unfold mem. rewrite existsb_exists. split.
  - intros (x & Hx & ->%Z.eqb_eq). by apply list_elem_of_In.
  - intros H. exists i. split; [by apply list_elem_of_In | apply Z.eqb_refl].
Qed.

Lemma well_selected_snoc n selected i :
  well_selected n selected -> 0 <= i < n -> mem i selected = false ->
  well_selected n (selected ++ [i]).
Proof.
  intros [Hnd Hall] Hi Hmem. split.
  - apply NoDup_app. split; [done|]. split; [|apply NoDup_singleton].
    intros x Hx ->%list_elem_of_singleton.
    apply mem_elem in Hx. congruence.
  - apply Forall_app. split; [done|]. by constructor.
Qed.

Lemma select_loop_well numbers n top_k selected :
  well_selected n selected ->
  well_selected n (select_loop rt numbers n top_k selected).
Proof.
  revert selected. induction numbers as [|num numbers IH]; intros selected H;
    simpl; [done|].
  set (idx := int_of_digits rt num).
  assert (Hsel : well_selected n
            (if (0 <=? idx) && (idx <? n) && negb (mem idx selected)
             then selected ++ [idx] else selected)).
  { destruct ((0 <=? idx) && (idx <? n) && negb (mem idx selected)) eqn:E;
      [|done].
    apply andb_true_iff in E as [[H0 Hn]%andb_true_iff Hm].
    apply well_selected_snoc; [done | lia | by apply negb_true_iff]. }
  destruct (len _ >=? top_k); [done | by apply IH].
Qed.

Lemma pad_loop_well range n top_k selected :
  Forall (fun i => 0 <= i < n) range ->
  well_selected n selected ->
  well_selected n (pad_loop range top_k selected).
Proof.
  intros Hrange. revert selected.
  induction Hrange as [|i range Hi _ IH]; intros selected H; simpl; [done|].
  assert (Hsel : well_selected n
            (if negb (mem i selected) then selected ++ [i] else selected)).
  { destruct (negb (mem i selected)) eqn:E; [|done].
    apply well_selected_snoc; [done | done | by apply negb_true_iff]. }
  destruct (len _ >=? top_k); [done | by apply IH].
Qed.

(** The padding loop stops with [top_k] indices, or has taken every index of
    its range. *)
Lemma pad_loop_full range top_k selected :
  top_k <= len (pad_loop range top_k selected)
  \/ (forall i, i ∈ selected \/ i ∈ range ->
                i ∈ pad_loop range top_k selected).
Proof.
  revert selected. induction range as [|i range IH]; intros selected; simpl.
  - right. intros i [H|H]; [done | inversion H].
  - set (selected' := if negb (mem i selected) then selected ++ [i] else selected).
    assert (Hmono : forall j, j ∈ selected \/ j = i -> j ∈ selected').
    { intros j [Hj | ->]; unfold selected';
        destruct (negb (mem i selected)) eqn:E.
      - apply elem_of_app. by left.
      - done.
      - apply elem_of_app. right. by apply list_elem_of_singleton.
      - apply negb_false_iff in E. by apply mem_elem. }
    destruct (len selected' >=? top_k) eqn:E; [left; lia|].
    destruct (IH selected') as [Hlen | Hall]; [by left|]. right.
    intros j [Hj | [-> | Hj]%elem_of_cons].
    + apply Hall. left. apply Hmono. by left.
    + apply Hall. left. apply Hmono. by right.
    + apply Hall. by right.
Qed.

Lemma range_elem (n : nat) (i : Z) : i ∈ range n <-> 0 <= i < Z.of_nat n.
Proof.
  unfold range. rewrite list_elem_of_fmap. split.
  - intros (j & -> & Hj). apply list_elem_of_In, in_seq in Hj. lia.
  - intros H. exists (Z.to_nat i). split; [lia|].
    apply list_elem_of_In, in_seq. lia.
Qed.

Lemma range_NoDup (n : nat) : NoDup (range n).
Proof.
  unfold range. apply NoDup_fmap_2; [intros x y Hxy; lia | apply NoDup_ListNoDup, seq_NoDup].
Qed.

Lemma range_length (n : nat) : length (range n) = n.
Proof. unfold range. by rewrite length_map, length_seq. Qed.

(** In a pool larger than [top_k], parsing and padding select at least
    [top_k] distinct positions of the pool, whatever the response says. *)
Lemma select_indices_spec raw_output (n : nat) top_k :
  top_k < Z.of_nat n ->
  well_selected (Z.of_nat n) (select_indices rt raw_output n top_k)
  /\ top_k <= len (select_indices rt raw_output n top_k).
Proof.
  intros Hlt. unfold select_indices.
  set (sel := select_loop rt _ _ _ _).
  assert (Hsel : well_selected (Z.of_nat n) sel)
    by (apply select_loop_well; split; constructor).
  destruct (len sel <? top_k) eqn:E; [|split; [done | lia]].
  assert (Hpad : well_selected (Z.of_nat n) (pad_loop (range n) top_k sel)).
  { apply pad_loop_well; [|done]. apply Forall_forall. intros i.
    apply range_elem. }
  split; [done|].
  destruct (pad_loop_full (range n) top_k sel) as [Hlen | Hall]; [done|].
  assert (length (range n) <= length (pad_loop (range n) top_k sel))%nat.
  { apply submseteq_length, NoDup_submseteq; [apply range_NoDup|].
    intros i Hi. apply Hall. by right. }
  rewrite range_length in H. unfold len. lia.
Qed.

Lemma items_in_range {A} (xs : list A) (idxs : list Z) :
  Forall (fun i => 0 <= i < len xs) idxs ->
  exists picked,
    items xs idxs = Ok picked
    /\ Forall2 (fun i c => xs !! Z.to_nat i = Some c) idxs picked.
Proof.
  induction 1 as [|i idxs Hi _ (picked & Hitems & Hall)]; simpl.
  - by exists [].
  - unfold item. destruct (i <? 0) eqn:E; [lia|]. rewrite E.
    destruct (xs !! Z.to_nat i) as [x|] eqn:Ex.
    + simpl. rewrite Hitems. exists (x :: picked). split; [done|].
      by constructor.
    + apply lookup_ge_None in Ex. unfold len in Hi. lia.
Qed.

Lemma distinct_picks_refl {A} (l : list A) : distinct_picks l l.
Proof.
  exists (seq 0 (length l)). split; [apply NoDup_ListNoDup, seq_NoDup|].
  apply Forall2_same_length_lookup. split; [by rewrite length_seq|].
  intros i j c Hj Hc. apply lookup_seq in Hj as [-> _]. done.
Qed.

Lemma distinct_picks_take {A} (pool picked : list A) (k : nat) :
  distinct_picks pool picked -> distinct_picks pool (take k picked).
Proof.
  intros (positions & Hnd & Hall). exists (take k positions). split.
  - eapply sublist_NoDup; [exact Hnd | apply sublist_take].
  - by apply Forall2_take.
Qed.

Lemma distinct_picks_perm {A} (pool picked : list A) :
  Permutation picked pool -> distinct_picks pool picked.
Proof.
  intros Hperm. apply Permutation_inj in Hperm as (Hlen & f & Hinj & Hf).
  exists (map f (seq 0 (length picked))). split.
  - apply NoDup_fmap_2; [done | apply NoDup_ListNoDup, seq_NoDup].
  - apply Forall2_same_length_lookup.
    split; [by rewrite length_map, length_seq|].
    intros i j c Hj Hc. rewrite list_lookup_fmap in Hj.
    destruct (seq 0 (length picked) !! i) as [i'|] eqn:Ei; [|done].
    apply lookup_seq in Ei as [-> _]. simpl in Hj.
    injection Hj as <-. by rewrite <- Hf.
Qed.

End RerankFacts.

(** C4. For a pool larger than [top_k], when the ranking call fails the
    reranker does not raise: it returns the first [top_k] chunks of the pool
    sorted by descending score. *)
Theorem rerank_chunks_fallback (rt : runtime) (question : str)
  (chunks : list Chat.Match) (top_k : Z) (s : Chat.state) :
  0 <= top_k < len chunks ->
  completion_fails s ->
  exists s',
    Chat.rerank_chunks rt question chunks top_k s
    = (Ok (take (Z.to_nat top_k) (Chat.sorted_desc chunks)), s')
    /\ Permutation (Chat.sorted_desc chunks) chunks
    /\ StronglySorted desc (Chat.sorted_desc chunks).
Proof.
  intros Hk Hfail. unfold Chat.rerank_chunks.
  destruct chunks as [|c chunks]; [unfold len in Hk; simpl in Hk; lia|].
  destruct (len (c :: chunks) <=? top_k) eqn:E; [lia|].
  unfold Chat.try_catch, Chat.bind.
  destruct (chat_completion_fails
              [(lit "user", Chat.rerank_prompt question (c :: chunks) top_k)]
              0%Q 100 30 s Hfail) as (e & s' & ->).
  exists s'. unfold Chat.ret. rewrite slice_to_take by lia.
  split; [done|]. split; [apply sorted_desc_perm | apply sorted_desc_sorted].
Qed.

Lemma rerank_chunks_fallback_witness :
  let pool := [sample "c1" (1 # 2) "criminal" "Whoever commits murder";
               sample "c2" (9 # 10) "constitution" "Protection of life";
               sample "c3" (7 # 10) "criminal" "Culpable homicide"] in
  exists s',
    Chat.rerank_chunks ascii_runtime (lit "What is murder?") pool 2
      (fresh [Chat.RespError (lit "timeout")])
    = (Ok [sample "c2" (9 # 10) "constitution" "Protection of life";
           sample "c3" (7 # 10) "criminal" "Culpable homicide"], s').
Proof.
  intros pool.
  destruct (rerank_chunks_fallback ascii_runtime (lit "What is murder?")
              pool 2 (fresh [Chat.RespError (lit "timeout")]))
    as (s' & Hrun & _).
  - vm_compute. split; [discriminate | reflexivity].
  - exact I.
  - exists s'. exact Hrun.
Defined.

(** C10. For a non-negative [top_k], the reranker always returns exactly
    [min(top_k, pool size)] chunks, taken at pairwise distinct positions of
    the pool: in the pass-through, after parsing and padding whatever the
    response contains, and in the fallback. *)
Theorem rerank_chunks_picks (rt : runtime) (question : str)
  (chunks : list Chat.Match) (top_k : Z) (s : Chat.state) :
  0 <= top_k ->
  exists picked s',
    Chat.rerank_chunks rt question chunks top_k s = (Ok picked, s')
    /\ len picked = Z.min top_k (len chunks)
    /\ distinct_picks chunks picked.
Proof.
  intros Hk. unfold Chat.rerank_chunks.
  destruct chunks as [|c chunks].
  { exists [], s. split; [done|]. split; [unfold len; simpl; lia|].
    apply distinct_picks_refl. }
  set (pool := c :: chunks).
  destruct (len pool <=? top_k) eqn:E.
  { exists pool, s. rewrite slice_to_all by lia. split; [done|].
    split; [lia | apply distinct_picks_refl]. }
  assert (Hlt : top_k < len pool) by lia.
  unfold Chat.try_catch, Chat.bind.
  destruct (Chat.chat_completion _ _ _ _ s) as [[raw|e] s1].
  - destruct (select_indices_spec rt (strip raw) (length pool) top_k Hlt)
      as [[Hnd Hrange] Hlen].
    set (sel := Chat.select_indices rt (strip raw) (length pool) top_k) in *.
    rewrite slice_to_take by done.
    destruct (items_in_range pool (take (Z.to_nat top_k) sel))
      as (picked & -> & Hpicked); [by apply Forall_take|].
    exists picked, s1. split; [done|]. split.
    + apply Forall2_length in Hpicked. unfold len in *.
      rewrite <- Hpicked, length_take. lia.
    + exists (map Z.to_nat (take (Z.to_nat top_k) sel)). split.
      * apply NoDup_fmap_2_strong.
        -- intros x y Hx Hy Hxy.
           assert (Hin : Forall (fun i => 0 <= i < len pool)
                           (take (Z.to_nat top_k) sel))
             by (by apply Forall_take).
           rewrite Forall_forall in Hin.
           apply Hin in Hx, Hy. lia.
        -- eapply sublist_NoDup; [exact Hnd | apply sublist_take].
      * by apply Forall2_fmap_l.
  - exists (slice_to top_k (Chat.sorted_desc pool)), s1. split; [done|].
    rewrite slice_to_take by done. split.
    + unfold len in *. rewrite length_take.
      rewrite (Permutation_length (sorted_desc_perm pool)). lia.
    + apply distinct_picks_take, distinct_picks_perm, sorted_desc_perm.
Qed.

Lemma rerank_chunks_picks_witness :
  let pool := [sample "c1" (1 # 2) "criminal" "Whoever commits murder";
               sample "c2" (9 # 10) "constitution" "Protection of life";
               sample "c3" (7 # 10) "criminal" "Culpable homicide"] in
  exists picked s',
    Chat.rerank_chunks ascii_runtime (lit "What is murder?") pool 2
      (fresh [Chat.RespText (lit "7, 2, 2")])
    = (Ok picked, s')
    /\ len picked = 2
    /\ map Chat.id picked = [lit "c3"; lit "c1"].
Proof.
  intros pool.
  destruct (rerank_chunks_picks ascii_runtime (lit "What is murder?")
              pool 2 (fresh [Chat.RespText (lit "7, 2, 2")]))
    as (picked & s' & Hrun & Hlen & _).
  - vm_compute. discriminate.
  - exists picked, s'. split; [exact Hrun|]. split; [exact Hlen|].
    vm_compute in Hrun. injection Hrun as <- <-. vm_compute. reflexivity.
Defined.

(* ===================================================================== *)
(** * The context budget                                                  *)
(* ===================================================================== *)

Section ContextFacts.

Import Chat.
Variable rt : runtime.

Lemma total_len_snoc parts x : total_len (parts ++ [x]) = total_len parts + len x.
Proof.
  induction parts as [|p parts IH]; simpl; [lia|]. rewrite IH. lia.
Qed.

Lemma len_app {A} (a b : list A) : len (a ++ b) = len a + len b.
Proof. unfold len. rewrite length_app. lia. Qed.

Lemma len_nonneg {A} (a : list A) : 0 <= len a.
Proof. unfold len. lia. Qed.

Lemma len_cons {A} (x : A) (a : list A) : len (x :: a) = len a + 1.
Proof. unfold len. simpl. lia. Qed.

Lemma len_join sep parts :
  len (join sep parts) = total_len parts + len sep * Z.max 0 (len parts - 1).
Proof.
  induction parts as [|p parts IH]; [unfold len; simpl; lia|].
  destruct parts as [|p' parts].
  - simpl. unfold len. simpl. lia.
  - change (join sep (p :: p' :: parts)) with (p ++ sep ++ join sep (p' :: parts)).
    rewrite !len_app, IH.
    change (total_len (p :: p' :: parts)) with (len p + total_len (p' :: parts)).
    rewrite !len_cons. pose proof (len_nonneg parts).
    rewrite !Z.max_r by lia. ring.
Qed.

Lemma lstrip_by_length p s : (length (lstrip_by p s) <= length s)%nat.
Proof.
  induction s as [|c s IH]; simpl; [done|]. destruct (p c); simpl; lia.
Qed.

Lemma rsplit1_head_len sep s : len (rsplit1_head sep s) <= len s.
Proof.
  unfold rsplit1_head, len. destruct (existsb _ s); [|lia].
  rewrite length_rev.
  pose proof (lstrip_by_length (fun c => negb (c =? sep)%N) (rev s)) as H.
  rewrite length_rev in H.
  destruct (lstrip_by _ (rev s)); simpl in *; lia.
Qed.

Lemma slice_to_len {A} (n : Z) (xs : list A) :
  0 <= n -> len (slice_to n xs) <= n.
Proof.
  intros H. rewrite slice_to_take by done. unfold len.
  rewrite length_take. lia.
Qed.

Lemma context_loop_cons c chunks max_length context_parts total_length :
  context_loop rt (c :: chunks) max_length context_parts total_length
  = let text := default [] (text (metadata c)) in
    let source := default (lit "unknown") (index_source (metadata c)) in
    if negb (truthy (strip text))
    then context_loop rt chunks max_length context_parts total_length
    else
      let snippet := lit "[" ++ str_upper rt source ++ lit "] " ++ text in
      if total_length + len snippet >? max_length then
        let remaining := max_length - total_length in
        if remaining >? 100
        then context_parts
             ++ [rsplit1_head 32%N (slice_to remaining snippet) ++ lit "..."]
        else context_parts
      else
        let context_parts' := context_parts ++ [snippet] in
        let total_length' := total_length + len snippet in
        if total_length' >=? max_length then context_parts'
        else context_loop rt chunks max_length context_parts' total_length'.
Proof. reflexivity. Qed.

(** The loop keeps the accepted snippets within the budget, up to the
    ellipsis of a truncated last one, and accepts at most one per chunk. *)
Lemma context_loop_budget chunks max_length parts total :
  total_len parts = total -> total <= max_length ->
  total_len (context_loop rt chunks max_length parts total)
  <= max_length + len (lit "...")
  /\ len (context_loop rt chunks max_length parts total)
     <= len parts + len chunks.
Proof.
  assert (Hdots : len (lit "...") = 3) by reflexivity. rewrite Hdots.
  revert parts total.
  induction chunks as [|c chunks IH]; intros parts total Hsum Hle.
  - simpl. rewrite Hsum. change (len (@nil Match)) with 0. lia.
  - rewrite len_cons, context_loop_cons. cbv zeta.
    pose proof (len_nonneg chunks) as Hchunks.
    destruct (negb (truthy (strip _))).
    { destruct (IH parts total Hsum Hle). lia. }
    set (snippet := lit "[" ++ _ ++ lit "] " ++ _).
    destruct (total + len snippet >? max_length) eqn:Eover.
    + destruct (max_length - total >? 100) eqn:Erem; [|lia].
      rewrite total_len_snoc, !len_app, Hdots.
      pose proof (rsplit1_head_len 32%N
                    (slice_to (max_length - total) snippet)).
      pose proof (slice_to_len (max_length - total) snippet).
      change (len [rsplit1_head 32%N (slice_to (max_length - total) snippet)
                   ++ lit "..."]) with 1.
      lia.
    + destruct (total + len snippet >=? max_length) eqn:Efull.
      * rewrite total_len_snoc, len_app. change (len [snippet]) with 1. lia.
      * destruct (IH (parts ++ [snippet]) (total + len snippet)) as [H1 H2];
          [by rewrite total_len_snoc, Hsum | lia |].
        rewrite len_app in H2. change (len [snippet]) with 1 in H2. lia.
Qed.

End ContextFacts.

(** C2, as the code has it.  For a budget [max_length >= 0], the snippets
    the context assembler accepts (at most one per chunk) have a total
    length of at most [max_length] plus the three characters of the
    ellipsis; the returned string puts the two-character separator between
    them, which the budget does not count. *)
Theorem build_context_budget (rt : runtime) (chunks : list Chat.Match)
  (max_length : Z) :
  0 <= max_length ->
  let parts := Chat.context_loop rt chunks max_length [] 0 in
  total_len parts <= max_length + len (lit "...")
  /\ len parts <= len chunks
  /\ len (Chat.build_context rt chunks max_length)
     = total_len parts + 2 * Z.max 0 (len parts - 1)
  /\ len (Chat.build_context rt chunks max_length)
     <= max_length + len (lit "...") + 2 * Z.max 0 (len chunks - 1).
Proof.
  intros Hmax parts.
  destruct (context_loop_budget rt chunks max_length [] 0) as [H1 H2];
    [done | done |].
  change (len (@nil str)) with 0 in H2. fold parts in H1, H2.
  assert (H3 : len (Chat.build_context rt chunks max_length)
               = total_len parts + 2 * Z.max 0 (len parts - 1)).
  { unfold Chat.build_context. fold parts. by rewrite len_join. }
  split; [exact H1|]. split; [lia|]. split; [exact H3|]. lia.
Qed.

Lemma build_context_budget_witness :
  let parts := Chat.context_loop ascii_runtime short_pool 54 [] 0 in
  0 <= 54
  /\ total_len parts <= 54 + len (lit "...")
  /\ len (Chat.build_context ascii_runtime short_pool 54)
     = total_len parts + 2 * Z.max 0 (len parts - 1).
Proof.
  intros parts.
  assert (H : 0 <= 54) by discriminate.
  destruct (build_context_budget ascii_runtime short_pool 54 H)
    as (H1 & _ & H3 & _).
  split; [exact H|]. split; [exact H1 | exact H3].
Defined.

(** C2, as stated, fails: three snippets of 18 characters fill a budget of
    54 exactly, and the string returned is 58 characters long, more than
    54 plus the ellipsis. *)
Lemma build_context_over_budget :
  ~ (forall (rt : runtime) (chunks : list Chat.Match) (max_length : Z),
       0 <= max_length ->
       len (Chat.build_context rt chunks max_length)
       <= max_length + len (lit "...")).
Proof.
  intros H. specialize (H ascii_runtime short_pool 54).
  assert (H0 : 0 <= 54) by discriminate. specialize (H H0).
  vm_compute in H. apply H. reflexivity.
Qed.

(** The same with the budget and the pool size of [answer_question]: five
    snippets of 1600 characters give a context of 8008 characters. *)
Example build_context_default_budget :
  len (Chat.build_context ascii_runtime long_pool 8000) = 8008.
Proof. vm_compute. reflexivity. Qed.

(* ===================================================================== *)
(** * The query expander                                                  *)
(* ===================================================================== *)

(** What holds of the expander for every set order: it answers with a list
    without repetition of at most [n + 1] entries, each the question or a
    parsed variation; it answers with the question alone when the call
    fails; and the question is in the list whenever the reply brings at most
    [n] variations. *)
Lemma generate_alternative_queries_shape (rt : runtime) (question : str)
  (n : Z) (s : Chat.state) :
  set_order_ok rt -> 0 <= n ->
  exists queries s',
    Chat.generate_alternative_queries rt question n s = (Ok queries, s')
    /\ NoDup queries
    /\ len queries <= n + 1
    /\ (completion_fails s -> queries = [question])
    /\ (forall raw rest,
          Chat.pending s = Chat.RespText raw :: rest ->
          truthy (strip question) = true ->
          (forall x, x ∈ queries ->
                     x = question \/ x ∈ Chat.parse_variations (strip raw))
          /\ (len (Chat.parse_variations (strip raw)) <= n ->
              question ∈ queries)).
Proof.
  intros Hset Hn. unfold Chat.generate_alternative_queries.
  assert (Hsingle : NoDup [question] /\ len [question] <= n + 1).
  { split; [apply NoDup_singleton|]. change (len [question]) with 1. lia. }
  destruct (truthy (strip question)) eqn:Eq; simpl.
  - unfold Chat.try_catch, Chat.bind, Chat.chat_completion, Chat.service,
      completion_fails.
    destruct (Chat.pending s) as [|[v|ms|raw|e] rest]; simpl;
      try (eexists [question], _; split; [done|];
           split; [apply Hsingle|]; split; [apply Hsingle|];
           split; [done|]; by intros raw' rest' [=]).
    set (variations := Chat.parse_variations (strip raw)).
    destruct (Hset (question :: variations)) as [Hnd Hmem].
    eexists _, _. split; [done|]. rewrite slice_to_take by lia.
    split; [eapply sublist_NoDup; [exact Hnd | apply sublist_take]|].
    split; [unfold len; rewrite length_take; lia|].
    split; [done|].
    intros raw' rest' [= <- <-] _. split.
    + intros x Hx.
      apply subseteq_take, Hmem in Hx.
      apply elem_of_cons in Hx as [->|Hx]; [by left | by right].
    + intros Hlen. rewrite take_ge.
      * apply Hmem. left.
      * assert (H : (length (set_order rt (question :: variations))
                     <= length (question :: variations))%nat).
        { apply submseteq_length, NoDup_submseteq; [done|].
          intros x. apply Hmem. }
        fold variations in Hlen. unfold len in Hlen.
        rewrite length_cons in H. lia.
  - exists [question], s. split; [done|].
    split; [apply Hsingle|]. split; [apply Hsingle|]. split; [done|].
    intros raw rest _ [=].
Qed.

(** C9, where the code departs from it.  The reply brings four lines, so
    five distinct strings enter the set; the cut to [n + 1 = 4] keeps the
    first four in the set's order, and in the order of this run the
    question comes last: the list returned does not contain it. *)
Theorem generate_alternative_queries_drops_original :
  exists s',
    Chat.generate_alternative_queries ascii_runtime (lit "What is bail?") 3
      (fresh [Chat.RespText expansion_reply])
    = (Ok [lit "How does Indian law define bail?";
           lit "What are the statutory provisions governing bail?";
           lit "Can I get out of jail before trial?";
           lit "Here are the variations:"], s')
    /\ lit "What is bail?"
       ∉ [lit "How does Indian law define bail?";
          lit "What are the statutory provisions governing bail?";
          lit "Can I get out of jail before trial?";
          lit "Here are the variations:"].
Proof.
  eexists. split.
  - vm_compute. reflexivity.
  - apply (bool_decide_unpack _). vm_compute. reflexivity.
Qed.

Lemma ascii_set_order_ok : set_order_ok ascii_runtime.
Proof.
  assert (Hmem : forall xs x, x ∈ dedup xs <-> x ∈ xs).
  { induction xs as [|y xs IH]; intros x; simpl; [done|].
    destruct (existsb (str_eqb y) xs) eqn:E.
    - rewrite IH, elem_of_cons. split; [by right|].
      intros [->|H]; [|done].
      apply existsb_exists in E as (z & Hz & ->%str_eqb_eq).
      by apply list_elem_of_In.
    - by rewrite !elem_of_cons, IH. }
  intros xs. simpl. split.
  - apply NoDup_ListNoDup, NoDup_rev, NoDup_ListNoDup.
    induction xs as [|y xs IH]; simpl; [constructor|].
    destruct (existsb (str_eqb y) xs) eqn:E; [done|].
    constructor; [|done]. rewrite Hmem. intros Hy.
    apply not_true_iff_false in E. apply E, existsb_exists.
    exists y. split; [by apply list_elem_of_In | apply str_eqb_refl].
  - intros x. by rewrite list_elem_of_In, <- in_rev, <- list_elem_of_In, Hmem.
Qed.

Lemma generate_alternative_queries_shape_witness :
  exists queries s',
    Chat.generate_alternative_queries ascii_runtime (lit "What is bail?") 3
      (fresh [Chat.RespError (lit "timeout")]) = (Ok queries, s')
    /\ queries = [lit "What is bail?"].
Proof.
  destruct (generate_alternative_queries_shape ascii_runtime
              (lit "What is bail?") 3 (fresh [Chat.RespError (lit "timeout")])
              ascii_set_order_ok)
    as (queries & s' & Hrun & _ & _ & Hfail & _).
  - discriminate.
  - exists queries, s'. split; [exact Hrun | exact (Hfail I)].
Defined.

(* ===================================================================== *)
(** * Runs of the pipeline                                                *)
(* ===================================================================== *)

(** A reply without any index is no failure of the ranking call: the
    selection is padded in pool order, not by score. *)
Example rerank_chunks_unparsable_reply :
  fst (Chat.rerank_chunks ascii_runtime (lit "What is murder?") mixed_pool 2
         (fresh [Chat.RespText (lit "I cannot rank these.")]))
  = Ok [sample "c1" (1 # 2) "criminal" "Whoever commits murder";
        sample "c2" (9 # 10) "constitution" "Protection of life"].
Proof. vm_compute. reflexivity. Qed.

(** With every service down, each stage falls back on its own and the
    answer is the fixed no-results message: nothing reaches the handler of
    [answer_question]. *)
Example answer_question_outage :
  fst (Chat.answer_question ascii_runtime (lit "What is Article 21?") (fresh []))
  = Ok (lit "I couldn't find relevant information.").
Proof. vm_compute. reflexivity. Qed.

(** A full run: retrieval, pass-through of the reranker, context tagged with
    the index of the best match, and the answer of the synthesis call. *)
Example answer_question_run :
  fst (Chat.answer_question ascii_runtime (lit "What is Article 21?")
         (fresh (Chat.pending sample_retrieval
                 ++ [Chat.RespText (lit "Article 21 protects life and personal liberty.")])))
  = Ok (lit "Article 21 protects life and personal liberty.").
Proof. vm_compute. reflexivity. Qed.

(* ===================================================================== *)
(** * Test vectors                                                        *)
(* ===================================================================== *)

Example md5_empty :
  MD5.hexdigest [] = lit "d41d8cd98f00b204e9800998ecf8427e".
Proof. vm_compute. reflexivity. Qed.

Example md5_abc :
  option_map MD5.hexdigest (utf8_encode (lit "abc"))
  = Some (lit "900150983cd24fb0d6963f7d28e17f72").
Proof. vm_compute. reflexivity. Qed.

Example md5_two_blocks :
  option_map MD5.hexdigest (utf8_encode (repeat 120%N 70))
  = Some (lit "7d56c0f83fd1e320d60ea2f13dfdeedd").
Proof. vm_compute. reflexivity. Qed.

Example md5_e_acute :
  option_map MD5.hexdigest (utf8_encode [233%N])
  = Some (lit "66ddcd97cfdeabb2f6fb8a999b4bc76f").
Proof. vm_compute. reflexivity. Qed.

Example generate_doc_id_abc :
  Ingest.generate_doc_id (lit "ipc.json") 12 (lit "abc")
  = Ok (lit "ipc.json___12___90015098").
Proof. vm_compute. reflexivity. Qed.

(* ===================================================================== *)
(** * Further properties: chunk ids and the stored vectors                *)
(* ===================================================================== *)

Section IdFacts.

Import Ingest.

Lemma lit_inj (a b : string) : lit a = lit b -> a = b.
Proof.
  unfold lit. intros H.
  rewrite <- (string_of_list_ascii_of_string a),
          <- (string_of_list_ascii_of_string b).
  f_equal. revert H.
  generalize (list_ascii_of_string a) (list_ascii_of_string b).
  induction l as [|x l IH]; intros [|y l']; simpl; try discriminate; [done|].
  intros [= Hxy Hl]. f_equal; [|by apply IH].
  by rewrite <- (ascii_N_embedding x), <- (ascii_N_embedding y), Hxy.
Qed.

Lemma to_int_not_nil (z : Z) : Z.to_int z <> Decimal.Pos Decimal.Nil
                               /\ Z.to_int z <> Decimal.Neg Decimal.Nil.
Proof.
  split; intros H; pose proof (DecimalZ.of_to z) as Hz; rewrite H in Hz;
    simpl in Hz; subst z; discriminate.
Qed.

Lemma str_of_Z_inj (a b : Z) : str_of_Z a = str_of_Z b -> a = b.
Proof.
  unfold str_of_Z. intros H%lit_inj.
  apply DecimalZ.to_int_inj.
  destruct (to_int_not_nil a) as [Ha1 Ha2], (to_int_not_nil b) as [Hb1 Hb2].
  pose proof (NilZero.isi _ Ha1 Ha2) as Ea.
  pose proof (NilZero.isi _ Hb1 Hb2) as Eb.
  rewrite H in Ea. congruence.
Qed.

Lemma le_bytes_length n x : length (MD5.le_bytes n x) = n.
Proof. revert x. induction n as [|n IH]; intros x; simpl; [done | by rewrite IH]. Qed.

Lemma hexdigest_length msg : length (MD5.hexdigest msg) = 32%nat.
Proof.
  unfold MD5.hexdigest.
  assert (Hd : length (MD5.digest msg) = 16%nat).
  { unfold MD5.digest. destruct (MD5.blocks _ _ _) as [[[a b] c] d].
    by rewrite !length_app, !le_bytes_length. }
  revert Hd. generalize (MD5.digest msg). intros l Hl.
  assert (H : forall l : list Z,
             length (flat_map (fun b => [MD5.hex_digit (b / 16);
                                         MD5.hex_digit (b mod 16)]) l)
             = (2 * length l)%nat).
  { induction l0 as [|y l0 IH]; simpl; [done | rewrite IH; lia]. }
  rewrite H, Hl. done.
Qed.

Lemma content_hash_length text h : content_hash text = Ok h -> length h = 8%nat.
Proof.
  unfold content_hash. destruct (utf8_encode text) as [bytes|]; [|done].
  intros [= <-]. rewrite slice_to_take by done.
  rewrite length_take, hexdigest_length. done.
Qed.

Lemma generate_doc_id_inj_index filename i j t1 t2 id :
  generate_doc_id filename i t1 = Ok id ->
  generate_doc_id filename j t2 = Ok id ->
  i = j.
Proof.
  unfold generate_doc_id, rbind.
  destruct (content_hash t1) as [h1|] eqn:E1; [|done].
  destruct (content_hash t2) as [h2|] eqn:E2; [|done].
  apply content_hash_length in E1, E2.
  intros H1 H2.
  assert (H : filename ++ lit "___" ++ str_of_Z i ++ lit "___" ++ h1
              = filename ++ lit "___" ++ str_of_Z j ++ lit "___" ++ h2)
    by congruence.
  apply app_inv_head, app_inv_head in H.
  apply app_inj_2 in H as [H _]; [by apply str_of_Z_inj|].
  rewrite !length_app. congruence.
Qed.

End IdFacts.

(** The position is part of the id: within a file, two chunks at different
    positions never get the same id, whatever their texts. *)
Theorem generate_doc_id_position (filename : str) (i j : Z) (t1 t2 id : str) :
  Ingest.generate_doc_id filename i t1 = Ok id ->
  Ingest.generate_doc_id filename j t2 = Ok id ->
  i = j.
Proof. apply generate_doc_id_inj_index. Qed.

Lemma generate_doc_id_position_witness :
  Ingest.generate_doc_id (lit "ipc.json") 3 (lit "abc")
  = Ok (lit "ipc.json___3___90015098")
  /\ 3 = 3.
Proof.
  assert (H : Ingest.generate_doc_id (lit "ipc.json") 3 (lit "abc")
              = Ok (lit "ipc.json___3___90015098"))
    by (vm_compute; reflexivity).
  split; [exact H|].
  exact (generate_doc_id_position (lit "ipc.json") 3 3 (lit "abc") (lit "abc")
           _ H H).
Defined.

Section StoreFacts.

Import Ingest.

Lemma store_batch_cons (e : entry) (vectors : list entry)
  (m : gmap str (vector * dict value)) :
  store_batch (e :: vectors) m
  = store_batch vectors (<[entry_id e := (e.1.2, e.2)]> m).
Proof. reflexivity. Qed.

Lemma store_batch_lookup_notin (vectors : list entry)
  (m : gmap str (vector * dict value)) (k : str) :
  k ∉ map entry_id vectors -> store_batch vectors m !! k = m !! k.
Proof.
  revert m. induction vectors as [|e vectors IH]; intros m Hk; [done|].
  rewrite store_batch_cons. simpl in Hk. apply not_elem_of_cons in Hk as [Hne Hk].
  rewrite IH by done. by rewrite lookup_insert_ne.
Qed.

(** The entry at position [p] is the one found under its id when no later
    entry of the batch has the same id. *)
Lemma store_batch_lookup_last (vectors : list entry)
  (m : gmap str (vector * dict value)) (p : nat) (e : entry) :
  vectors !! p = Some e ->
  (forall q e', (p < q)%nat -> vectors !! q = Some e' -> entry_id e' <> entry_id e) ->
  store_batch vectors m !! entry_id e = Some (e.1.2, e.2).
Proof.
  revert m p. induction vectors as [|e0 vectors IH]; intros m p Hp Hlater; [done|].
  rewrite store_batch_cons. destruct p as [|p]; simpl in Hp.
  - injection Hp as ->. rewrite store_batch_lookup_notin.
    + by rewrite lookup_insert_eq.
    + intros Hin. apply list_elem_of_fmap in Hin as (e' & Heq & Hin).
      apply list_elem_of_lookup in Hin as [q Hq].
      apply (Hlater (S q) e'); [lia | done | done].
  - apply (IH _ p); [done|]. intros q e' Hq He'.
    apply (Hlater (S q) e'); [lia | done].
Qed.

(** What a prepared batch holds at each of its positions. *)
Lemma prepare_batch_entries filename metadatas batch_metadatas i j batch vs :
  prepare_batch filename metadatas batch_metadatas i j batch = Ok vs ->
  length vs = length batch
  /\ forall p e, vs !! p = Some e ->
       exists vec m text bm,
         batch !! p = Some vec
         /\ metadatas !! (i + j + p)%nat = Some m
         /\ meta_text m = Ok text
         /\ generate_doc_id filename (Z.of_nat (i + j + p)) text = Ok (entry_id e)
         /\ batch_metadatas !! (j + p)%nat = Some bm
         /\ e = (entry_id e, vec, bm).
Proof.
  revert j vs. induction batch as [|vec batch IH]; intros j vs; simpl.
  - intros [= <-]. split; [done|]. intros p e Hp. by destruct p.
  - destruct (metadatas !! (i + j)%nat) as [m|] eqn:Em; simpl; [|done].
    destruct (meta_text m) as [text|] eqn:Et; simpl; [|done].
    destruct (generate_doc_id filename _ text) as [_id|] eqn:Eid; simpl; [|done].
    destruct (batch_metadatas !! j) as [bm|] eqn:Eb; simpl; [|done].
    destruct (prepare_batch _ _ _ _ (S j) batch) as [vs'|] eqn:E; simpl; [|done].
    intros [= <-]. destruct (IH _ _ E) as [Hlen Hent].
    split; [simpl; by rewrite Hlen|].
    intros [|p] e Hp; simpl in Hp.
    + injection Hp as <-. exists vec, m, text, bm.
      rewrite !Nat.add_0_r. done.
    + destruct (Hent p e Hp) as (vec' & m' & text' & bm' & H1 & H2 & H3 & H4 & H5 & H6).
      exists vec', m', text', bm'.
      replace (i + j + S p)%nat with (i + S j + p)%nat by lia.
      replace (j + S p)%nat with (S j + p)%nat by lia. done.
Qed.

(** The entries of the batch that starts at [i] are those of the positions
    [i], [i + 1], ... of the file, each with its own vector and metadata. *)
Lemma batch_of_entries filename metadatas batch_size embeddings i vs p e :
  batch_of filename metadatas batch_size embeddings i = Ok vs ->
  vs !! p = Some e ->
  exists vec m text,
    (p < batch_size)%nat
    /\ embeddings !! (i + p)%nat = Some vec
    /\ metadatas !! (i + p)%nat = Some m
    /\ meta_text m = Ok text
    /\ generate_doc_id filename (Z.of_nat (i + p)) text = Ok (entry_id e)
    /\ e = (entry_id e, vec, m).
Proof.
  unfold batch_of. intros Hb Hp.
  destruct (prepare_batch_entries _ _ _ _ _ _ _ Hb) as [_ Hent].
  destruct (Hent p e Hp) as (vec & m & text & bm & H1 & H2 & H3 & H4 & H5 & H6).
  rewrite Nat.add_0_r in H2, H4. simpl in H5.
  apply lookup_take_Some in H1 as [H1 Hlt]. rewrite lookup_drop in H1.
  apply lookup_take_Some in H5 as [H5 _]. rewrite lookup_drop in H5.
  exists vec, m, text. repeat split; try done.
  assert (bm = m) as <- by congruence. done.
Qed.

Lemma batch_of_length filename metadatas batch_size embeddings i vs :
  batch_of filename metadatas batch_size embeddings i = Ok vs ->
  length vs = length (take batch_size (drop i embeddings)).
Proof.
  unfold batch_of. intros Hb.
  by destruct (prepare_batch_entries _ _ _ _ _ _ _ Hb) as [Hlen _].
Qed.

(** A run leaves alone every id that none of its batches holds. *)
Lemma upsert_batches_other starts embeddings metadatas filename batch_size s r s' k :
  (forall i vs, i ∈ starts ->
     batch_of filename metadatas batch_size embeddings i = Ok vs ->
     k ∉ map entry_id vs) ->
  upsert_batches starts embeddings metadatas filename batch_size s = (r, s') ->
  store s' !! k = store s !! k.
Proof.
  revert s. induction starts as [|i0 starts IH]; intros s Hall.
  - by intros [= <- <-].
  - rewrite upsert_batches_cons.
    destruct (batch_of _ _ _ _ i0) as [vectors|] eqn:Eb; [|by intros [= <- <-]].
    destruct (upsert_attempts _ vectors s) as [r1 s1] eqn:Eu.
    assert (H1 : store s1 !! k = store s !! k).
    { apply upsert_attempts_store in Eu as [->|[_ ->]]; [done|].
      apply store_batch_lookup_notin, (Hall i0); [left | done]. }
    destruct r1 as [[]|e]; [|by intros [= <- <-]].
    intros Hrest. rewrite <- H1. apply (IH s1); [|done].
    intros i vs Hi. apply Hall. by right.
Qed.

(** Batches that start at different multiples of the batch size share no
    position. *)
Lemma same_batch (batch_size q q' p p' : nat) :
  (p < batch_size)%nat -> (p' < batch_size)%nat ->
  (q * batch_size + p = q' * batch_size + p')%nat -> q = q'.
Proof. intros Hp Hp' H. nia. Qed.

Lemma upsert_batches_lookup qs embeddings metadatas filename batch_size s s' :
  NoDup qs ->
  upsert_batches (map (fun q => (q * batch_size)%nat) qs)
    embeddings metadatas filename batch_size s = (Ok tt, s') ->
  forall q p vec m,
    q ∈ qs -> (p < batch_size)%nat ->
    embeddings !! (q * batch_size + p)%nat = Some vec ->
    metadatas !! (q * batch_size + p)%nat = Some m ->
    exists text id,
      meta_text m = Ok text
      /\ generate_doc_id filename (Z.of_nat (q * batch_size + p)) text = Ok id
      /\ store s' !! id = Some (vec, m).
Proof.
  intros Hnd. revert s.
  induction Hnd as [|q0 qs Hq0 Hnd IH]; intros s Hrun q p vec m Hq Hp Hvec Hm.
  { inversion Hq. }
  simpl map in Hrun. rewrite upsert_batches_cons in Hrun.
  destruct (batch_of _ _ _ _ (q0 * batch_size)%nat) as [vectors|] eqn:Eb; [|done].
  destruct (upsert_attempts _ vectors s) as [[[]|e] s1] eqn:Eu; [|done].
  apply elem_of_cons in Hq as [->|Hq]; [|by apply (IH s1)].
  apply upsert_attempts_ok in Eu.
  assert (Hlt : (p < length vectors)%nat).
  { rewrite (batch_of_length _ _ _ _ _ _ Eb), length_take, length_drop.
    apply lookup_lt_Some in Hvec. lia. }
  apply lookup_lt_is_Some in Hlt as [e0 He0].
  destruct (batch_of_entries _ _ _ _ _ _ _ _ Eb He0)
    as (vec' & m' & text & _ & Hv' & Hm' & Ht & Hid & He).
  assert (vec' = vec) as -> by congruence.
  assert (m' = m) as -> by congruence.
  exists text, (entry_id e0). split; [done|]. split; [done|].
  assert (Hkeep : store s' !! entry_id e0 = store s1 !! entry_id e0).
  { eapply upsert_batches_other; [|exact Hrun].
    intros i vs Hi Hvs Hin.
    apply list_elem_of_fmap in Hi as (q' & -> & Hq').
    apply list_elem_of_fmap in Hin as (e' & Heq & Hin).
    apply list_elem_of_lookup in Hin as [p' He'].
    destruct (batch_of_entries _ _ _ _ _ _ _ _ Hvs He')
      as (_ & _ & text' & Hp' & _ & _ & _ & Hid' & _).
    rewrite <- Heq in Hid'.
    pose proof (generate_doc_id_inj_index _ _ _ _ _ _ Hid Hid') as Hpos.
    assert (q0 = q') as -> by (apply (same_batch batch_size q0 q' p p'); lia).
    done. }
  rewrite Hkeep, Eu, (store_batch_lookup_last _ _ p e0 He0).
  - by rewrite He.
  - intros p' e' Hlt' He' Heq.
    destruct (batch_of_entries _ _ _ _ _ _ _ _ Eb He')
      as (_ & _ & text' & _ & _ & _ & _ & Hid' & _).
    rewrite Heq in Hid'.
    pose proof (generate_doc_id_inj_index _ _ _ _ _ _ Hid Hid'). lia.
Qed.

Lemma index_upsert_attempts vectors s r s' :
  index_upsert vectors s = (r, s') ->
  exists used, attempts s = used ++ attempts s' /\ (length used <= 1)%nat.
Proof.
  unfold index_upsert. destruct (attempts s) as [|[|] rest] eqn:E;
    intros [= <- <-]; simpl.
  - exists []. rewrite E. split; [done | simpl; lia].
  - exists [true]. split; [done | simpl; lia].
  - exists [false]. split; [done | simpl; lia].
Qed.

Lemma upsert_attempts_bound range vectors s r s' :
  upsert_attempts range vectors s = (r, s') ->
  exists used, attempts s = used ++ attempts s'
               /\ (length used <= length range)%nat.
Proof.
  revert s. induction range as [|attempt range IH]; intros s; simpl.
  - intros [= <- <-]. exists []. split; [done | simpl; lia].
  - destruct (index_upsert vectors s) as [[[]|e] s1] eqn:E;
      apply index_upsert_attempts in E as (u1 & Hu1 & Hl1).
    + intros [= <- <-]. exists u1. split; [done | lia].
    + destruct (_ <? _)%nat.
      * intros H. apply IH in H as (u2 & Hu2 & Hl2).
        exists (u1 ++ u2). rewrite length_app, <- app_assoc, <- Hu2.
        split; [done | lia].
      * intros [= <- <-]. exists u1. split; [done | lia].
Qed.

Lemma upsert_batches_bound starts embeddings metadatas filename batch_size s r s' :
  upsert_batches starts embeddings metadatas filename batch_size s = (r, s') ->
  exists used, attempts s = used ++ attempts s'
               /\ (length used <= MAX_RETRIES * length starts)%nat.
Proof.
  revert s. induction starts as [|i0 starts IH]; intros s.
  - intros [= <- <-]. exists []. split; [done | simpl; lia].
  - rewrite upsert_batches_cons.
    destruct (batch_of _ _ _ _ i0) as [vectors|] eqn:Eb.
    2:{ intros [= <- <-]. exists []. split; [done | simpl; lia]. }
    destruct (upsert_attempts _ vectors s) as [r1 s1] eqn:Eu.
    apply upsert_attempts_bound in Eu as (u1 & Hu1 & Hl1).
    rewrite length_seq in Hl1.
    destruct r1 as [[]|e].
    + intros H. apply IH in H as (u2 & Hu2 & Hl2).
      exists (u1 ++ u2). rewrite length_app, <- app_assoc, <- Hu2.
      split; [done | simpl length; lia].
    + intros [= <- <-]. exists u1. split; [done | simpl length; lia].
Qed.

Lemma range_step_length n step :
  length (range_step n step) = ((n + step - 1) / step)%nat.
Proof. unfold range_step. by rewrite length_map, length_seq. Qed.

End StoreFacts.

(** After an upsert that ended normally, the vector and the metadata of every
    position are found under that position's chunk id. *)
Theorem upsert_to_pinecone_lookup (embeddings : list Ingest.vector)
  (metadatas : list (dict value)) (filename : str) (batch_size : nat)
  (s s' : Ingest.index_state) (idx : nat) (vec : Ingest.vector)
  (m : dict value) :
  Ingest.upsert_to_pinecone embeddings metadatas filename batch_size s
  = (Ok tt, s') ->
  embeddings !! idx = Some vec ->
  metadatas !! idx = Some m ->
  exists text id,
    Ingest.meta_text m = Ok text
    /\ Ingest.generate_doc_id filename (Z.of_nat idx) text = Ok id
    /\ Ingest.store s' !! id = Some (vec, m).
Proof.
  unfold Ingest.upsert_to_pinecone.
  destruct batch_size as [|b]; [done|]. set (bs := S b).
  unfold Ingest.range_step. intros Hrun Hvec Hm.
  assert (Hidx : idx = (idx / bs * bs + idx mod bs)%nat).
  { pose proof (Nat.div_mod_eq idx bs). lia. }
  rewrite Hidx in Hvec, Hm |- *.
  assert (Hnd : NoDup (seq 0 ((length embeddings + bs - 1) / bs)))
    by apply NoDup_ListNoDup, seq_NoDup.
  apply (upsert_batches_lookup _ _ _ _ _ _ _ Hnd Hrun);
    [|by apply Nat.mod_upper_bound|done|done].
  apply list_elem_of_In, in_seq. split; [lia|]. rewrite Nat.add_0_l.
  apply lookup_lt_Some in Hvec.
  assert (Hbs : bs <> 0%nat) by (unfold bs; lia).
  pose proof (Nat.div_mod_eq (length embeddings + bs - 1) bs) as Hn.
  pose proof (Nat.mod_upper_bound (length embeddings + bs - 1) bs Hbs) as Hr.
  pose proof (Nat.mod_upper_bound idx bs Hbs) as Hr'.
  revert Hvec Hn Hr Hr'.
  generalize (idx / bs)%nat (idx mod bs)%nat
    ((length embeddings + bs - 1) / bs)%nat
    ((length embeddings + bs - 1) mod bs)%nat.
  intros q r Q R Hvec Hn Hr Hr'. nia.
Qed.

Lemma upsert_to_pinecone_lookup_witness :
  let run :=
    Ingest.upsert_to_pinecone [[1 # 2]; [1 # 3]]%Q sample_metadatas
      (lit "ipc.json") 1
      {| Ingest.store := ∅; Ingest.attempts := [false; true; true] |} in
  exists m,
    sample_metadatas !! 1%nat = Some m
    /\ Ingest.store run.2 !! lit "ipc.json___1___90015098"
       = Some ([1 # 3]%Q, m).
Proof.
  intros run.
  assert (Hrun : run = (Ok tt, run.2)) by (vm_compute; reflexivity).
  destruct (upsert_to_pinecone_lookup _ _ _ _ _ _ 1 [1 # 3]%Q
              [(lit "text", VStr (lit "abc"));
               (lit "doc_type", VStr (lit "section"))] Hrun)
    as (text & id & Ht & Hid & Hstore); [reflexivity | reflexivity |].
  eexists. split; [reflexivity|].
  vm_compute in Ht. injection Ht as <-.
  vm_compute in Hid. injection Hid as <-.
  exact Hstore.
Defined.

(** An upsert run consumes at most [MAX_RETRIES] attempts per batch, in the
    order they come, whether it ends normally or raises. *)
Theorem upsert_to_pinecone_retries (embeddings : list Ingest.vector)
  (metadatas : list (dict value)) (filename : str) (batch_size : nat)
  (s : Ingest.index_state) :
  exists used,
    Ingest.attempts s
    = used ++ Ingest.attempts
                (Ingest.upsert_to_pinecone embeddings metadatas filename
                   batch_size s).2
    /\ (length used
        <= Ingest.MAX_RETRIES * ((length embeddings + batch_size - 1) / batch_size))%nat.
Proof.
  unfold Ingest.upsert_to_pinecone. destruct batch_size as [|b].
  { exists []. split; [done | simpl; lia]. }
  destruct (Ingest.upsert_batches _ _ _ _ _ s) as [r s'] eqn:E.
  apply upsert_batches_bound in E as (used & Hu & Hl).
  rewrite range_step_length in Hl. by exists used.
Qed.

(* ===================================================================== *)
(** * Further properties: embedding in batches                            *)
(* ===================================================================== *)

Section EmbedFacts.

Import Ingest Normalize.

Lemma embed_documents_log batch s r s' :
  embed_documents batch s = (r, s') ->
  exists o,
    embed_calls s' = embed_calls s ++ [(batch, o)]
    /\ match r with
       | Ok vs => o = Some vs
       | Raise _ => o = None
       end.
Proof.
  unfold embed_documents. destruct (outcomes s) as [|[vs|] rest];
    intros [= <- <-]; by eexists.
Qed.

(** One batch: when the retry loop ends normally, exactly one of its calls
    succeeded, and it is the last one. *)
Lemma embed_attempts_ok batch all s all' s' :
  embed_attempts (seq 0 MAX_RETRIES) batch all s = (Ok all', s') ->
  exists tr,
    embed_calls s' = embed_calls s ++ tr
    /\ flat_map answered tr = batch
    /\ all' = all ++ flat_map vectors_of tr
    /\ (length tr <= MAX_RETRIES)%nat
    /\ Forall (fun c => c.1 = batch) tr.
Proof.
  simpl.
  destruct (embed_documents batch s) as [[v1|e1] s1] eqn:E1;
    apply embed_documents_log in E1 as (o1 & Hc1 & Ho1); subst o1.
  { intros [= <- <-]. exists [(batch, Some v1)].
    unfold answered, vectors_of. simpl. rewrite !app_nil_r.
    split_and!; [done | done | done | unfold MAX_RETRIES; lia
                | by repeat constructor]. }
  destruct (embed_documents batch s1) as [[v2|e2] s2] eqn:E2;
    apply embed_documents_log in E2 as (o2 & Hc2 & Ho2); subst o2.
  { intros [= <- <-]. exists [(batch, None); (batch, Some v2)].
    unfold answered, vectors_of. simpl. rewrite !app_nil_r.
    split_and!; [by rewrite Hc2, Hc1, <- app_assoc | done | done
                | unfold MAX_RETRIES; lia | by repeat constructor]. }
  destruct (embed_documents batch s2) as [[v3|e3] s3] eqn:E3;
    apply embed_documents_log in E3 as (o3 & Hc3 & Ho3); subst o3; [|done].
  intros [= <- <-]. exists [(batch, None); (batch, None); (batch, Some v3)].
  unfold answered, vectors_of. simpl. rewrite !app_nil_r.
  split_and!; [by rewrite Hc3, Hc2, Hc1, <- !app_assoc | done | done
              | unfold MAX_RETRIES; lia | by repeat constructor].
Qed.

Lemma embed_batches_cons i starts texts batch_size all s :
  embed_batches (i :: starts) texts batch_size all s
  = match embed_attempts (seq 0 MAX_RETRIES)
            (take batch_size (drop i texts)) all s with
    | (Ok all', s') => embed_batches starts texts batch_size all' s'
    | (Raise e, s') => (Raise e, s')
    end.
Proof. reflexivity. Qed.

Lemma embed_batches_ok starts texts batch_size all s embs s' :
  embed_batches starts texts batch_size all s = (Ok embs, s') ->
  exists tr,
    embed_calls s' = embed_calls s ++ tr
    /\ flat_map answered tr
       = flat_map (fun i => take batch_size (drop i texts)) starts
    /\ embs = all ++ flat_map vectors_of tr
    /\ (length tr <= MAX_RETRIES * length starts)%nat
    /\ Forall (fun c => (length c.1 <= batch_size)%nat) tr.
Proof.
  revert all s. induction starts as [|i starts IH]; intros all s.
  - intros [= <- <-]. exists []. rewrite !app_nil_r.
    split_and!; [done | done | done | simpl; lia | constructor].
  - rewrite embed_batches_cons.
    destruct (embed_attempts _ _ all s) as [[all1|e] s1] eqn:E; [|done].
    apply embed_attempts_ok in E as (tr1 & Hc1 & Ha1 & -> & Hl1 & Hb1).
    intros H. apply IH in H as (tr2 & Hc2 & Ha2 & -> & Hl2 & Hb2).
    exists (tr1 ++ tr2). rewrite !flat_map_app, Ha1, Ha2.
    split_and!.
    + by rewrite Hc2, Hc1, <- app_assoc.
    + done.
    + by rewrite <- app_assoc.
    + rewrite length_app. simpl length. lia.
    + apply Forall_app. split; [|done].
      eapply Forall_impl; [exact Hb1|]. intros c ->.
      rewrite length_take. lia.
Qed.

(** Cutting a list into consecutive windows and gluing them gives it back. *)
Lemma windows_concat {A} (l : list A) (step k : nat) :
  flat_map (fun i => take step (drop i l)) (map (fun q => (q * step)%nat) (seq 0 k))
  = take (k * step) l.
Proof.
  induction k as [|k IH]; [done|].
  rewrite seq_S, map_app, flat_map_app, IH. simpl.
  rewrite app_nil_r, take_take_drop. f_equal. lia.
Qed.

Lemma range_step_concat {A} (l : list A) (step : nat) :
  step <> 0%nat ->
  flat_map (fun i => take step (drop i l)) (range_step (length l) step) = l.
Proof.
  intros Hstep. unfold range_step. rewrite windows_concat.
  apply take_ge.
  pose proof (Nat.div_mod_eq (length l + step - 1) step).
  pose proof (Nat.mod_upper_bound (length l + step - 1) step Hstep). nia.
Qed.

Lemma contract_lengths (tr : list (list str * option (list vector))) :
  Forall (fun c => forall vs, c.2 = Some vs -> length vs = length c.1) tr ->
  length (flat_map vectors_of tr) = length (flat_map answered tr).
Proof.
  induction 1 as [|[b o] tr Hc _ IH]; [done|].
  simpl. rewrite !length_app, IH. f_equal.
  unfold vectors_of, answered. simpl in *. destruct o as [vs|]; [|done].
  simpl. by apply Hc.
Qed.

End EmbedFacts.

(** When the embedding of a file's texts ends normally, the calls that
    succeeded embedded every text exactly once and in order, the result is
    what they returned, in order, no call carried more than [batch_size]
    texts, and at most [MAX_RETRIES] calls were made per batch; if every
    successful call returned one vector per text, there is one embedding per
    text. *)
Theorem embed_documents_in_batches_ok (texts : list str) (batch_size : nat)
  (s s' : Normalize.embed_state) (embs : list Ingest.vector) :
  Normalize.embed_documents_in_batches texts batch_size s = (Ok embs, s') ->
  flat_map answered (new_calls s s') = texts
  /\ embs = flat_map vectors_of (new_calls s s')
  /\ Forall (fun c => (length c.1 <= batch_size)%nat) (new_calls s s')
  /\ (length (new_calls s s')
      <= Ingest.MAX_RETRIES * ((length texts + batch_size - 1) / batch_size))%nat
  /\ (Forall (fun c => forall vs, c.2 = Some vs -> length vs = length c.1)
        (new_calls s s') ->
      length embs = length texts).
Proof.
  unfold Normalize.embed_documents_in_batches.
  destruct batch_size as [|b]; [done|]. set (bs := S b).
  intros H. apply embed_batches_ok in H as (tr & Hc & Ha & -> & Hl & Hb).
  assert (Hnew : new_calls s s' = tr).
  { unfold new_calls. by rewrite Hc, drop_app_length. }
  rewrite Hnew. rewrite range_step_concat in Ha by done.
  rewrite range_step_length in Hl.
  split_and!; try done.
  intros Hcontract. rewrite app_nil_l. by rewrite contract_lengths, Ha.
Qed.

Lemma embed_documents_in_batches_ok_witness :
  let s := {| Normalize.outcomes :=
                [None; Some [[1 # 2]; [1 # 3]]; Some [[1 # 5]]]%Q;
              Normalize.embed_calls := [] |} in
  let run :=
    Normalize.embed_documents_in_batches
      [lit "Preamble"; lit "Section 1"; lit "Section 2"] 2 s in
  run.1 = Ok [[1 # 2]; [1 # 3]; [1 # 5]]%Q
  /\ flat_map answered (new_calls s run.2)
     = [lit "Preamble"; lit "Section 1"; lit "Section 2"].
Proof.
  intros s run.
  assert (Hrun : run = (Ok [[1 # 2]; [1 # 3]; [1 # 5]]%Q, run.2))
    by (vm_compute; reflexivity).
  split; [vm_compute; reflexivity|].
  exact (proj1 (embed_documents_in_batches_ok _ _ _ _ _ Hrun)).
Defined.

(* ===================================================================== *)
(** * Further properties: sanitized metadata                              *)
(* ===================================================================== *)

Section SafeFacts.

Import Ingest.
Variable rt : runtime.

Lemma dict_get_set {V} (k k' : str) (v : V) (d : dict V) :
  dict_get k' (dict_set k v d)
  = if str_eqb k k' then Some v else dict_get k' d.
Proof.
  destruct (str_eqb k k') eqn:E.
  - apply str_eqb_eq in E as <-. apply dict_get_set_eq.
  - apply dict_get_set_ne. intros ->. by rewrite str_eqb_refl in E.
Qed.

Lemma dict_set_values {V} (Q : V -> Prop) (k : str) (v : V) (d : dict V) :
  Forall Q (dict_values d) -> Q v -> Forall Q (dict_values (dict_set k v d)).
Proof.
  intros Hd Hv. induction d as [|[k0 v0] d IH]; simpl.
  - by repeat constructor.
  - apply Forall_cons in Hd as [H0 Hd].
    destruct (str_eqb k k0); simpl; constructor; auto.
Qed.

Lemma dict_set_fresh {V} (k : str) (v : V) (d : dict V) :
  k ∉ dict_keys d -> dict_set k v d = d ++ [(k, v)].
Proof.
  induction d as [|[k0 v0] d IH]; simpl; [done|].
  intros [Hne Hk]%not_elem_of_cons.
  rewrite str_eqb_neq by done. by rewrite IH.
Qed.

Lemma sanitize_value_safe v v' : sanitize_value rt v = Some v' -> safe_value v'.
Proof.
  destruct v as [| | | | |l|d]; simpl; try (intros [= <-]; done).
  destruct (forallb is_str l) eqn:E; intros [= <-]; done.
Qed.

Lemma sanitize_value_id v : safe_value v -> sanitize_value rt v = Some v.
Proof. destruct v as [| | | | |l|d]; simpl; try done. by intros ->. Qed.

Lemma sanitize_loop_safe items safe :
  Forall safe_value (dict_values safe) -> NoDup (dict_keys safe) ->
  Forall safe_value (dict_values (sanitize_loop rt items safe))
  /\ NoDup (dict_keys (sanitize_loop rt items safe)).
Proof.
  revert safe. induction items as [|[k v] items IH]; intros safe Hs Hnd; [done|].
  simpl. apply IH.
  - destruct (sanitize_value rt v) as [v'|] eqn:E; [|done].
    apply dict_set_values; [done | by eapply sanitize_value_safe].
  - destruct (sanitize_value rt v); [by apply dict_set_NoDup | done].
Qed.

Lemma sanitize_loop_id items safe :
  Forall safe_value (dict_values items) ->
  NoDup (dict_keys safe ++ dict_keys items) ->
  sanitize_loop rt items safe = safe ++ items.
Proof.
  revert safe. induction items as [|[k v] items IH]; intros safe Hs Hnd; simpl.
  - by rewrite app_nil_r.
  - apply Forall_cons in Hs as [Hv Hs]. rewrite sanitize_value_id by done.
    assert (Hk : k ∉ dict_keys safe).
    { apply NoDup_app in Hnd as (_ & Hdis & _). intros Hin.
      apply (Hdis k Hin). left. }
    rewrite dict_set_fresh by done. rewrite IH; [by rewrite <- app_assoc | done |].
    unfold dict_keys in *. rewrite map_app. simpl.
    by rewrite <- app_assoc.
Qed.

End SafeFacts.

(** What [sanitize_metadata] returns is what its docstring promises: every
    value is a string, a number, a boolean or a list of strings, the keys
    are unique, and sanitizing it again changes nothing. *)
Theorem sanitize_metadata_safe (rt : runtime) (meta : dict value) :
  Forall safe_value (dict_values (Ingest.sanitize_metadata rt meta))
  /\ NoDup (dict_keys (Ingest.sanitize_metadata rt meta))
  /\ Ingest.sanitize_metadata rt (Ingest.sanitize_metadata rt meta)
     = Ingest.sanitize_metadata rt meta.
Proof.
  unfold Ingest.sanitize_metadata.
  destruct (sanitize_loop_safe rt meta []) as [Hs Hnd]; [constructor | constructor |].
  split; [done|]. split; [done|].
  by rewrite sanitize_loop_id.
Qed.

(* ===================================================================== *)
(** * Further properties: normalization and chunk bookkeeping             *)
(* ===================================================================== *)

Section NormalizeFacts.

Import Ingest Normalize.
Variable rt : runtime.
Variable split_text : str -> list str.

Lemma collect_Forall {A B} (Q : B -> Prop) (f : A -> result (list B)) l ds :
  (forall x out, f x = Ok out -> Forall Q out) ->
  collect f l = Ok ds -> Forall Q ds.
Proof.
  intros Hf. revert ds. induction l as [|x l IH]; intros ds; simpl.
  - by intros [= <-].
  - unfold rbind. destruct (f x) as [out|] eqn:E; [|done].
    destruct (collect f l) as [rest|]; [|done].
    intros [= <-]. apply Forall_app. split; [by eapply Hf | by apply IH].
Qed.

(** Run through the successive [let?] of a hypothesis that ends in [Ok]. *)
Ltac binds H :=
  unfold rbind in H; cbv beta iota zeta in H;
  repeat match type of H with
         | match ?c with Ok _ => _ | Raise _ => _ end = Ok _ =>
             let E := fresh "E" in
             destruct c eqn:E; cbv beta iota zeta in H; [|discriminate H]
         end.

Ltac literal_doc :=
  split; [apply (bool_decide_unpack _); vm_compute; reflexivity|];
  split; [eexists; split; reflexivity|];
  eexists; split; [|reflexivity];
  apply (bool_decide_unpack _); vm_compute; reflexivity.

Ltac one_or_none H :=
  injection H as <-;
  match goal with
  | |- Forall _ (if ?b then _ else _) =>
      destruct b; [|constructor]; constructor; [literal_doc | constructor]
  end.

Lemma sub_section_docs_ok a b c d e sub ds :
  sub_section_docs rt a b c d e sub = Ok ds -> Forall structural_ok ds.
Proof. unfold sub_section_docs. intros H. binds H. one_or_none H. Qed.

Lemma clause_docs_ok a b c d e clause ds :
  clause_docs rt a b c d e clause = Ok ds -> Forall structural_ok ds.
Proof. unfold clause_docs. intros H. binds H. one_or_none H. Qed.

Lemma type_docs_ok a b c d e exp t ds :
  type_docs rt a b c d e exp t = Ok ds -> Forall structural_ok ds.
Proof.
  unfold type_docs, explanation_doc. intros H. binds H. one_or_none H.
Qed.

Lemma explanation_docs_ok a b c d e exp ds :
  explanation_docs rt a b c d e exp = Ok ds -> Forall structural_ok ds.
Proof.
  unfold explanation_docs, explanation_doc.
  destruct exp as [| | | | | |m]; try done.
  destruct (dict_get (lit "types") m) as [types|].
  - intros H. binds H. eapply collect_Forall; [|exact H].
    intros x out. apply type_docs_ok.
  - intros H. binds H. one_or_none H.
Qed.

Lemma section_docs_ok a b c d sec ds :
  section_docs rt a b c d sec = Ok ds -> Forall structural_ok ds.
Proof.
  unfold section_docs. intros H. binds H. injection H as <-.
  repeat apply Forall_app_2.
  - match goal with
    | |- Forall _ (if ?x then _ else _) =>
        destruct x; [|constructor]; constructor; [literal_doc | constructor]
    end.
  - eapply collect_Forall; [|eassumption].
    intros x out. apply sub_section_docs_ok.
  - eapply collect_Forall; [|eassumption].
    intros x out. apply clause_docs_ok.
  - eapply collect_Forall; [|eassumption].
    intros x out. apply explanation_docs_ok.
Qed.

Lemma chapter_docs_ok a b ch ds :
  chapter_docs rt a b ch = Ok ds -> Forall structural_ok ds.
Proof.
  unfold chapter_docs. intros H. binds H.
  eapply collect_Forall; [|exact H]. intros x out. apply section_docs_ok.
Qed.

Lemma structural_docs_ok data ds :
  structural_docs rt data = Ok ds -> Forall structural_ok ds.
Proof.
  unfold structural_docs. intros H. binds H. injection H as <-.
  apply Forall_app_2.
  - match goal with
    | |- Forall _ (if ?x then _ else _) =>
        destruct x; [|constructor]; constructor; [literal_doc | constructor]
    end.
  - eapply collect_Forall; [|eassumption].
    intros x out. apply chapter_docs_ok.
Qed.

(** Look a literal key up through a chain of assignments. *)
Ltac lookups :=
  rewrite ?dict_get_set;
  repeat match goal with
         | |- context [str_eqb (lit ?a) (lit ?b)] =>
             let r := eval vm_compute in (str_eqb (lit a) (lit b)) in
             change (str_eqb (lit a) (lit b)) with r
         end;
  cbv iota.

Lemma chunk_doc_ok d : structural_ok d -> Forall chunk_ok (chunk_doc rt split_text d).
Proof.
  intros (Hnd & (t & Ht & Htruth) & (k & Hk & Hkind)).
  unfold chunk_doc.
  assert (He : ensure_text rt d = d).
  { unfold ensure_text. rewrite Ht. simpl. by rewrite Htruth. }
  rewrite He, Ht. simpl default. unfold chunk_text. rewrite Htruth.
  destruct (split_text t) as [|c0 cs] eqn:Esplit.
  - constructor; [|constructor]. split; [by repeat apply dict_set_NoDup|].
    split; [exists t; by lookups|].
    split; [exists k; split; [done | by lookups]|].
    eexists 0, 1, false, _. unfold keywords_of.
    split_and!; [by lookups | by lookups | lia | lia | by lookups | by lookups].
  - apply Forall_forall. intros x Hx.
    apply elem_of_lookup_imap in Hx as (i & ch & -> & Hi).
    apply lookup_lt_Some in Hi. unfold chunked_doc.
    split; [by repeat apply dict_set_NoDup|].
    split; [exists ch; by lookups|].
    split; [exists k; split; [done | by lookups]|].
    eexists (Z.of_nat i), (Z.of_nat (length (c0 :: cs))), true, _.
    unfold keywords_of.
    split_and!; [by lookups | by lookups | lia | lia | by lookups | by lookups].
Qed.

Lemma normalize_docs_ok data cleaned :
  normalize_docs rt split_text data = Ok cleaned -> Forall chunk_ok cleaned.
Proof.
  unfold normalize_docs. intros H. binds H. injection H as <-.
  match goal with
  | E : structural_docs rt data = Ok ?docs |- _ =>
      apply structural_docs_ok in E; induction E as [|d ds Hd _ IH]
  end; simpl; [constructor|].
  apply Forall_app_2; [by apply chunk_doc_ok | done].
Qed.

End NormalizeFacts.

(** Every chunk that [normalize_docs] returns is a mapping with unique keys
    that carries a string text, one of the five document kinds, a keyword
    string, a chunking flag, and a chunk index that lies below its total
    number of chunks. *)
Theorem normalize_docs_bookkeeping (rt : runtime) (split_text : str -> list str)
  (data : value) (cleaned : list Normalize.doc) :
  Normalize.normalize_docs rt split_text data = Ok cleaned ->
  Forall chunk_ok cleaned.
Proof. apply normalize_docs_ok. Qed.

Lemma normalize_docs_bookkeeping_witness :
  exists cleaned,
    Normalize.normalize_docs ascii_runtime sample_split sample_act = Ok cleaned
    /\ length cleaned = 6%nat
    /\ Forall chunk_ok cleaned.
Proof.
  set (r := Normalize.normalize_docs ascii_runtime sample_split sample_act).
  assert (Hr : r = Ok (match r with Ok c => c | Raise _ => [] end))
    by (vm_compute; reflexivity).
  eexists. split; [exact Hr|]. split; [vm_compute; reflexivity|].
  exact (normalize_docs_bookkeeping _ _ _ _ Hr).
Defined.

(** A document that is no mapping, or that has neither chapters nor a
    preamble, is rejected before anything is read from it. *)
Theorem normalize_docs_rejects (rt : runtime) (split_text : str -> list str)
  (data : value) :
  (forall d, data = VDict d ->
             dict_get (lit "chapters") d = None
             /\ dict_get (lit "preamble") d = None) ->
  exists e, Normalize.normalize_docs rt split_text data = Raise e.
Proof.
  intros H. unfold Normalize.normalize_docs, Normalize.validate_data_structure.
  destruct data as [| | | | | |d]; try by eexists.
  destruct (H d eq_refl) as [-> ->]. by eexists.
Qed.

Lemma normalize_docs_rejects_witness :
  exists e,
    Normalize.normalize_docs ascii_runtime sample_split sample_bad_act = Raise e.
Proof.
  apply normalize_docs_rejects. unfold sample_bad_act.
  intros d [= <-]. split; reflexivity.
Defined.

Section PrepareFacts.

Import Ingest Normalize.
Variable rt : runtime.
Variable str_lower : str -> str.

Lemma detect_type_kind fname : detect_type str_lower fname ∈ file_kinds.
Proof.
  unfold detect_type, file_kinds.
  repeat match goal with
         | |- context [if ?b then _ else _] => destruct b
         end;
    apply (bool_decide_unpack _); vm_compute; reflexivity.
Qed.

Lemma filter_keys_sublist {V} (p : str * V -> bool) (d : dict V) :
  dict_keys (List.filter p d) `sublist_of` dict_keys d.
Proof.
  induction d as [|kv d IH]; simpl; [constructor|].
  destruct (p kv); simpl; by constructor.
Qed.

Lemma dict_get_filter_other {V} (k0 k : str) (d : dict V) :
  k <> k0 ->
  dict_get k (List.filter (fun kv => negb (str_eqb (fst kv) k0)) d)
  = dict_get k d.
Proof.
  intros Hne. induction d as [|[k1 v1] d IH]; simpl; [done|].
  destruct (str_eqb k1 k0) eqn:E1; simpl.
  - apply str_eqb_eq in E1 as ->. by rewrite (str_eqb_neq k k0).
  - by rewrite IH.
Qed.

Lemma prepare_metadata_ok filename ftype d t :
  NoDup (dict_keys d) ->
  dict_get (lit "text") d = Some (VStr t) ->
  let tm := prepare_metadata rt filename ftype d in
  tm.1 = VStr t
  /\ meta_text tm.2 = Ok t
  /\ dict_get (lit "source") tm.2 = Some (VStr filename)
  /\ dict_get (lit "type") tm.2 = Some (VStr ftype)
  /\ forall i, dict_get (lit "chunk_index") d = Some (VInt i) ->
               dict_get (lit "chunk_index") tm.2 = Some (VInt i).
Proof.
  intros Hnd Ht. unfold prepare_metadata. rewrite Ht. simpl default.
  set (meta0 := List.filter _ d).
  assert (Hnd0 : NoDup (dict_keys meta0))
    by (eapply sublist_NoDup; [exact Hnd | apply filter_keys_sublist]).
  set (meta := dict_set (lit "text") _ _).
  assert (Hndm : NoDup (dict_keys meta)) by (by repeat apply dict_set_NoDup).
  assert (Htext : dict_get (lit "text") (sanitize_metadata rt meta)
                  = Some (VStr t)).
  { unfold sanitize_metadata. rewrite sanitize_loop_get by done.
    unfold meta. by rewrite dict_get_set_eq. }
  simpl. split; [done|]. split; [unfold meta_text; by rewrite Htext|].
  unfold sanitize_metadata. rewrite !sanitize_loop_get by done.
  unfold meta. split_and!.
  - rewrite !dict_get_set.
    change (str_eqb (lit "text") (lit "source")) with false.
    change (str_eqb (lit "type") (lit "source")) with false.
    by rewrite str_eqb_refl.
  - rewrite !dict_get_set.
    change (str_eqb (lit "text") (lit "type")) with false.
    by rewrite str_eqb_refl.
  - intros i Hi. rewrite !dict_get_set.
    change (str_eqb (lit "text") (lit "chunk_index")) with false.
    change (str_eqb (lit "type") (lit "chunk_index")) with false.
    change (str_eqb (lit "source") (lit "chunk_index")) with false.
    cbv iota. unfold meta0. rewrite dict_get_filter_other; [by rewrite Hi|].
    intros H. vm_compute in H. discriminate.
Qed.

End PrepareFacts.

(** Every chunk normalized from a document reaches the index with metadata
    that holds its own text (the text its id is hashed from), the name of
    its source file, one of the five file types, and its chunk index. *)
Theorem prepared_metadata_of_chunks (rt : runtime)
  (split_text : str -> list str) (str_lower : str -> str) (filename : str)
  (data : value) (cleaned : list Normalize.doc) :
  Normalize.normalize_docs rt split_text data = Ok cleaned ->
  Forall2
    (fun d tm =>
       exists t i,
         dict_get (lit "text") d = Some (VStr t)
         /\ tm.1 = VStr t
         /\ Ingest.meta_text tm.2 = Ok t
         /\ dict_get (lit "source") tm.2 = Some (VStr filename)
         /\ (exists k, k ∈ file_kinds
                       /\ dict_get (lit "type") tm.2 = Some (VStr k))
         /\ dict_get (lit "chunk_index") d = Some (VInt i)
         /\ dict_get (lit "chunk_index") tm.2 = Some (VInt i))
    cleaned (Normalize.prepare_all rt str_lower filename cleaned).
Proof.
  intros H. apply normalize_docs_ok in H.
  unfold Normalize.prepare_all. apply Forall2_fmap_r, Forall_Forall2_diag.
  eapply Forall_impl; [exact H|].
  intros d (Hnd & (t & Ht) & _ & (i & n & b & kw & Hi & _)).
  destruct (prepare_metadata_ok rt filename
              (Normalize.detect_type str_lower filename) d t Hnd Ht)
    as (H1 & H2 & H3 & H4 & H5).
  exists t, i. split_and!; try done.
  - eexists. split; [apply detect_type_kind | exact H4].
  - by apply H5.
Qed.

Lemma prepared_metadata_of_chunks_witness :
  exists cleaned,
    Normalize.normalize_docs ascii_runtime sample_split sample_act = Ok cleaned
    /\ length (Normalize.prepare_all ascii_runtime ascii_lower
                 (lit "IPC_Main.json") cleaned) = length cleaned
    /\ map (fun tm => dict_get (lit "type") tm.2)
         (Normalize.prepare_all ascii_runtime ascii_lower
            (lit "IPC_Main.json") cleaned)
       = repeat (Some (VStr (lit "main"))) 6.
Proof.
  set (r := Normalize.normalize_docs ascii_runtime sample_split sample_act).
  assert (Hr : r = Ok (match r with Ok c => c | Raise _ => [] end))
    by (vm_compute; reflexivity).
  pose proof (prepared_metadata_of_chunks ascii_runtime sample_split
                ascii_lower (lit "IPC_Main.json") _ _ Hr) as H.
  eexists. split; [exact Hr|].
  apply Forall2_length in H. split; [symmetry; exact H|].
  vm_compute. reflexivity.
Defined.

(* ===================================================================== *)
(** * Further properties: the stages of the query pipeline                *)
(* ===================================================================== *)

Section StageFacts.

Import Chat.
Variable rt : runtime.

Lemma extends_refl s : extends s s [].
Proof. split; [by rewrite app_nil_r | done]. Qed.

Lemma extends_trans s s1 s2 tr1 tr2 :
  extends s s1 tr1 -> extends s1 s2 tr2 -> extends s s2 (tr1 ++ tr2).
Proof.
  intros [Hc1 [Hh1 Hf1]] [Hc2 [Hh2 Hf2]]. split; [|split]; try congruence.
  by rewrite Hc2, Hc1, app_assoc.
Qed.

Lemma extends_between s s' tr : extends s s' tr -> calls_between s s' = tr.
Proof. intros [Hc _]. unfold calls_between. by rewrite Hc, drop_app_length. Qed.

Lemma extends_received s s' tr :
  extends s s' tr -> received s s' = flat_map returned tr.
Proof. intros [Hc _]. unfold received. by rewrite Hc, drop_app_length. Qed.

Lemma service_extends {A} (c : call) (expect : response -> option A) s r s' :
  service c expect s = (r, s') ->
  exists resp,
    extends s s' [(c, resp)]
    /\ match r with
       | Ok a => expect resp = Some a
       | Raise _ => expect resp = None \/ exists e, resp = RespError e
       end.
Proof.
  unfold service, extends, same_transcript.
  destruct (pending s) as [|resp rest].
  - intros [= <- <-]. eexists. split; [done|]. right. by eexists.
  - destruct resp as [v|ms|c0|e]; try (destruct (expect _) eqn:E);
      intros [= <- <-]; eexists; (split; [done|]); eauto.
Qed.

Lemma embed_query_extends q s r s' :
  embed_query q s = (r, s') ->
  exists tr, extends s s' tr /\ flat_map returned tr = []
             /\ length tr = 1%nat.
Proof.
  intros H. apply service_extends in H as (resp & He & _).
  by exists [(CallEmbed q, resp)].
Qed.


Lemma index_query_extends name qvec k s r s' :
  index_query name qvec k s = (r, s') ->
  exists tr,
    extends s s' tr
    /\ length tr = 1%nat
    /\ flat_map returned tr
       = match r with
         | Ok ms => map (tag_source name) ms
         | Raise _ => []
         end.
Proof.
  intros H. apply service_extends in H as (resp & He & Hr).
  exists [(CallQuery name qvec k, resp)]. split; [done|]. split; [done|].
  simpl. rewrite app_nil_r. destruct r as [ms|e].
  - destruct resp; by inversion Hr.
  - destruct Hr as [Hr | [e' ->]]; [|done]. by destruct resp.
Qed.

(** ** Cross-link expansion *)

Lemma add_new_cases name d m :
  add_new name d m = d
  \/ ((id m ∉ dict_keys d)
      /\ add_new name d m = d ++ [(id m, tag_source name m)]).
Proof.
  unfold add_new. simpl.
  destruct (dict_get (id m) d) eqn:E; [by left|]. right.
  apply dict_get_None in E. split; [done|]. by apply dict_set_fresh.
Qed.

Lemma keyed_snoc d k m :
  keyed d -> k ∉ dict_keys d -> id m = k -> keyed (d ++ [(k, m)]).
Proof.
  intros [Hnd Hid] Hk Hm. split.
  - unfold dict_keys. rewrite map_app. apply NoDup_app.
    split; [done|]. split; [|apply NoDup_singleton].
    intros x Hx ->%list_elem_of_singleton. done.
  - intros k' m' [Hin | [= -> ->]%list_elem_of_singleton]%elem_of_app;
      [by apply Hid | done].
Qed.

Lemma add_new_fold name ms d :
  keyed d ->
  exists extra,
    fold_left (add_new name) ms d = d ++ extra
    /\ keyed (d ++ extra)
    /\ Forall (fun km => km.2 ∈ map (tag_source name) ms) extra.
Proof.
  revert d. induction ms as [|m ms IH]; intros d Hd; simpl.
  - exists []. rewrite app_nil_r. split_and!; [done | done | constructor].
  - destruct (add_new_cases name d m) as [-> | [Hfresh ->]].
    + destruct (IH d Hd) as (extra & He & Hk & Hall).
      exists extra. split; [done|]. split; [done|].
      eapply Forall_impl; [exact Hall|]. intros km Hkm. by right.
    + destruct (IH (d ++ [(id m, tag_source name m)])) as (extra & He & Hk & Hall).
      { by apply keyed_snoc. }
      exists ((id m, tag_source name m) :: extra).
      rewrite <- app_assoc in He, Hk. split; [done|]. split; [done|].
      constructor; [by left|].
      eapply Forall_impl; [exact Hall|]. intros km Hkm. by right.
Qed.

Lemma followup_indexes_trace names qvec k d s d' s' :
  keyed d ->
  followup_indexes names qvec k d s = (d', s') ->
  exists tr extra,
    extends s s' tr
    /\ (length tr <= length names)%nat
    /\ d' = d ++ extra /\ keyed d'
    /\ Forall (fun km => km.2 ∈ flat_map returned tr) extra.
Proof.
  revert d s. induction names as [|name names IH]; intros d s Hd; simpl.
  - intros [= <- <-]. exists [], []. rewrite app_nil_r.
    split_and!; [apply extends_refl | done | done | done | constructor].
  - destruct (index_query name qvec k s) as [[ms|e] s1] eqn:E;
      apply index_query_extends in E as (tr1 & He1 & Hl1 & Hr1).
    + destruct (add_new_fold name ms d Hd) as (x1 & Hx1 & Hk1 & Hall1).
      rewrite Hx1. intros H.
      apply IH in H as (tr2 & x2 & He2 & Hl2 & -> & Hk2 & Hall2); [|done].
      exists (tr1 ++ tr2), (x1 ++ x2).
      split_and!; [by eapply extends_trans | rewrite length_app; lia
                  | by rewrite app_assoc | done |].
      rewrite flat_map_app, Hr1. apply Forall_app. split.
      * eapply Forall_impl; [exact Hall1|]. intros km Hkm.
        apply elem_of_app. by left.
      * eapply Forall_impl; [exact Hall2|]. intros km Hkm.
        apply elem_of_app. by right.
    + intros [= <- <-]. exists tr1, []. rewrite app_nil_r.
      split_and!; [done | lia | done | done | constructor].
Qed.

Lemma follow_values_cons value values k d s :
  follow_values (value :: values) k d s
  = match embed_query value s with
    | (Raise _, s') => follow_values values k d s'
    | (Ok qvec, s') =>
        match followup_indexes indexes qvec k d s' with
        | (d', s'') => follow_values values k d' s''
        end
    end.
Proof. reflexivity. Qed.

Lemma follow_values_trace values k d s d' s' :
  keyed d ->
  follow_values values k d s = (d', s') ->
  exists tr extra,
    extends s s' tr
    /\ (length tr <= 3 * length values)%nat
    /\ d' = d ++ extra /\ keyed d'
    /\ Forall (fun km => km.2 ∈ flat_map returned tr) extra.
Proof.
  revert d s. induction values as [|v values IH]; intros d s Hd.
  - intros [= <- <-]. exists [], []. rewrite app_nil_r.
    split_and!; [apply extends_refl | simpl; lia | done | done | constructor].
  - rewrite follow_values_cons.
    destruct (embed_query v s) as [[qvec|e] s1] eqn:E;
      apply embed_query_extends in E as (tr1 & He1 & Hr1 & Hl1).
    + destruct (followup_indexes indexes qvec k d s1) as [d2 s2] eqn:E2.
      apply followup_indexes_trace in E2
        as (tr2 & x2 & He2 & Hl2 & -> & Hk2 & Hall2); [|done].
      intros H.
      apply IH in H as (tr3 & x3 & He3 & Hl3 & -> & Hk3 & Hall3); [|done].
      exists (tr1 ++ tr2 ++ tr3), (x2 ++ x3).
      split_and!.
      * eapply extends_trans; [done|]. by eapply extends_trans.
      * rewrite !length_app. simpl length in *. lia.
      * by rewrite app_assoc.
      * done.
      * rewrite !flat_map_app, Hr1. simpl. apply Forall_app. split.
        -- eapply Forall_impl; [exact Hall2|]. intros km Hkm.
           apply elem_of_app. by left.
        -- eapply Forall_impl; [exact Hall3|]. intros km Hkm.
           apply elem_of_app. by right.
    + intros H.
      apply IH in H as (tr3 & x3 & He3 & Hl3 & -> & Hk3 & Hall3); [|done].
      exists (tr1 ++ tr3), x3.
      split_and!; [by eapply extends_trans
                  | rewrite length_app; simpl length; lia | done | done |].
      by rewrite flat_map_app, Hr1.
Qed.

Lemma related_keys_length meta : (length (related_keys meta) <= 3)%nat.
Proof.
  unfold related_keys. simpl.
  repeat match goal with
         | |- context [link_seed ?x] => destruct (link_seed x)
         end; simpl; lia.
Qed.

Lemma links_loop_trace chunks k d s d' s' :
  keyed d ->
  links_loop chunks k d s = (d', s') ->
  exists tr extra,
    extends s s' tr
    /\ (length tr <= 9 * length chunks)%nat
    /\ d' = d ++ extra /\ keyed d'
    /\ Forall (fun km => km.2 ∈ flat_map returned tr) extra.
Proof.
  revert d s. induction chunks as [|c chunks IH]; intros d s Hd; simpl.
  - intros [= <- <-]. exists [], []. rewrite app_nil_r.
    split_and!; [apply extends_refl | simpl; lia | done | done | constructor].
  - destruct (follow_values _ k d s) as [d1 s1] eqn:E1.
    apply follow_values_trace in E1
      as (tr1 & x1 & He1 & Hl1 & -> & Hk1 & Hall1); [|done].
    assert (Hl : (length tr1 <= 9)%nat).
    { pose proof (related_keys_length (metadata c)) as Hr.
      rewrite slice_to_take, length_take in Hl1 by done. lia. }
    intros H.
    apply IH in H as (tr2 & x2 & He2 & Hl2 & -> & Hk2 & Hall2); [|done].
    exists (tr1 ++ tr2), (x1 ++ x2).
    split_and!; [by eapply extends_trans | rewrite length_app; lia
                | by rewrite app_assoc | done |].
    rewrite flat_map_app. apply Forall_app. split.
    + eapply Forall_impl; [exact Hall1|]. intros km Hkm.
      apply elem_of_app. by left.
    + eapply Forall_impl; [exact Hall2|]. intros km Hkm.
      apply elem_of_app. by right.
Qed.

(** The map [{c["id"]: c for c in chunks}], built on top of [d0]. *)
Lemma fold_set_keyed chunks d0 :
  keyed d0 ->
  let d := fold_left (fun d c => dict_set (id c) c d) chunks d0 in
  keyed d
  /\ (forall k m, (k, m) ∈ d -> (k, m) ∈ d0 \/ m ∈ chunks)
  /\ (forall k, k ∈ dict_keys d0 \/ k ∈ map id chunks -> k ∈ dict_keys d).
Proof.
  revert d0. induction chunks as [|c chunks IH]; intros d0 Hd0; simpl.
  - split; [done|]. split; [by left|]. intros k [H|H]; [done | inversion H].
  - destruct Hd0 as [Hnd Hid].
    destruct (IH (dict_set (id c) c d0)) as (Hk & Hsrc & Hkeys).
    { split; [by apply dict_set_NoDup|]. intros k m Hin.
      apply dict_set_elem in Hin as [[-> ->]|[_ Hin]]; [done | by apply Hid | done]. }
    split; [done|]. split.
    + intros k m Hin. destruct (Hsrc k m Hin) as [H|H]; [|right; by right].
      apply dict_set_elem in H as [[-> ->]|[_ H]]; [right; left | by left | done].
    + intros k [H | [->|H]%elem_of_cons].
      * apply Hkeys. left. by apply dict_keys_set_mono.
      * apply Hkeys. left. apply dict_keys_set_key.
      * apply Hkeys. by right.
Qed.

End StageFacts.

(** The cross-link expander always answers with a list holding one match per
    id.  Every input id is still there, held by an input chunk: no follow-up
    match replaces it.  Every other match is one an index returned during
    the run.  No more than nine calls are made per input chunk, and an empty
    input makes none. *)
Theorem expand_with_links_keeps_inputs (chunks : list Chat.Match) (k : Z)
  (s : Chat.state) :
  exists out s',
    Chat.expand_with_links chunks k s = (Ok out, s')
    /\ NoDup (map Chat.id out)
    /\ (forall c, c ∈ chunks ->
                  exists m, m ∈ out /\ Chat.id m = Chat.id c /\ m ∈ chunks)
    /\ (forall m, m ∈ out -> m ∈ chunks \/ m ∈ received s s')
    /\ (length (calls_between s s') <= 9 * length chunks)%nat.
Proof.
  unfold Chat.expand_with_links.
  destruct chunks as [|c0 chunks0] eqn:Echunks.
  { exists [], s. unfold Chat.ret, calls_between. rewrite drop_all.
    split_and!; [done | constructor | | | simpl; lia];
      intros ? H; inversion H. }
  rewrite <- Echunks. clear Echunks c0 chunks0.
  destruct (fold_set_keyed chunks []) as (Hk0 & Hsrc & Hkeys).
  { split; [constructor|]. intros ? ? H. inversion H. }
  set (d0 := fold_left (fun d c => dict_set (Chat.id c) c d) chunks []) in *.
  destruct (Chat.links_loop chunks k d0 s) as [d' s'] eqn:E.
  apply links_loop_trace in E as (tr & extra & He & Hl & -> & [Hnd Hid] & Hall);
    [|done].
  exists (dict_values (d0 ++ extra)), s'. split; [done|].
  assert (Hvals : forall m, m ∈ dict_values (d0 ++ extra) <->
                            (Chat.id m, m) ∈ d0 ++ extra).
  { intros m. unfold dict_values. rewrite list_elem_of_fmap. split.
    - intros ([k' m'] & -> & Hin). simpl. by rewrite (Hid _ _ Hin).
    - intros Hin. by exists (Chat.id m, m). }
  split_and!.
  - assert (Hmap : map Chat.id (dict_values (d0 ++ extra))
                   = dict_keys (d0 ++ extra)).
    { unfold dict_values, dict_keys. rewrite map_map.
      apply map_ext_in. intros [k' m'] Hin. simpl.
      apply list_elem_of_In in Hin. by apply Hid. }
    by rewrite Hmap.
  - intros c Hc.
    assert (Hin : Chat.id c ∈ dict_keys d0).
    { apply Hkeys. right. apply list_elem_of_fmap. by exists c. }
    apply dict_keys_elem in Hin as [m Hm].
    exists m. destruct (Hsrc _ _ Hm) as [H|H]; [inversion H|].
    assert (Hm' : (Chat.id c, m) ∈ d0 ++ extra) by (apply elem_of_app; by left).
    split_and!; [|by apply Hid | done].
    unfold dict_values. apply list_elem_of_fmap. by exists (Chat.id c, m).
  - intros m Hm. apply Hvals in Hm.
    apply elem_of_app in Hm as [Hm|Hm].
    + left. destruct (Hsrc _ _ Hm) as [H|H]; [inversion H | done].
    + right. rewrite (extends_received _ _ _ He).
      rewrite Forall_forall in Hall. by apply (Hall _ Hm).
  - by rewrite (extends_between _ _ _ He).
Qed.

Lemma expand_with_links_keeps_inputs_witness :
  exists out s',
    Chat.expand_with_links [linked_chunk] 3 sample_links = (Ok out, s')
    /\ NoDup (map Chat.id out)
    /\ map Chat.id out = [lit "c1"; lit "s7"]
    /\ (exists m, m ∈ out /\ Chat.id m = lit "c1" /\ m ∈ [linked_chunk]).
Proof.
  destruct (expand_with_links_keeps_inputs [linked_chunk] 3 sample_links)
    as (out & s' & Hrun & Hnd & Hkeep & _).
  exists out, s'. split; [exact Hrun|]. split; [exact Hnd|]. split.
  - vm_compute in Hrun. injection Hrun as <- <-. vm_compute. reflexivity.
  - apply (Hkeep linked_chunk). left.
Defined.

Section PipelineFacts.

Import Chat.
Variable rt : runtime.

(** ** Tags of the retrieved matches *)

Lemma dict_set_elem_weak {V} (k k' : str) (v v' : V) (d : dict V) :
  (k', v') ∈ dict_set k v d -> v' = v \/ (k', v') ∈ d.
Proof.
  induction d as [|[k0 v0] d IH]; simpl.
  - intros [= -> ->]%list_elem_of_singleton. by left.
  - destruct (str_eqb k k0).
    + intros [[= -> ->]|H]%elem_of_cons; [by left | right; by right].
    + intros [[= -> ->]|H]%elem_of_cons; [right; left|].
      destruct (IH H) as [->|H']; [by left | right; by right].
Qed.

Lemma merge_match_tagged_all name d m :
  name ∈ indexes -> all_tagged d -> all_tagged (merge_match name d m).
Proof.
  intros Hname Hd. unfold merge_match.
  assert (Hnew : tagged (tag_source name m)) by (by exists name).
  assert (Hset : all_tagged (dict_set (id (tag_source name m))
                               (tag_source name m) d)).
  { intros k' m' Hin. apply dict_set_elem_weak in Hin as [->|Hin];
      [done | by apply (Hd k')]. }
  destruct (dict_get _ d); [destruct (score_gt _ _)|]; done.
Qed.

Lemma query_indexes_tagged names qvec k d s d' ok s' :
  (forall name, name ∈ names -> name ∈ indexes) ->
  all_tagged d ->
  query_indexes names qvec k d s = ((d', ok), s') -> all_tagged d'.
Proof.
  revert d s. induction names as [|name names IH]; intros d s Hn Hd; simpl.
  - by intros [= <- _ _].
  - destruct (index_query name qvec k s) as [[ms|e] s1].
    + apply IH; [intros n Hin; apply Hn; by right|].
      assert (Hname : name ∈ indexes) by (apply Hn; left).
      clear -Hd Hname. revert d Hd.
      induction ms as [|m ms IHm]; intros d Hd; simpl; [done|].
      by apply IHm, merge_match_tagged_all.
    + by intros [= <- _ _].
Qed.

Lemma retrieve_loop_tagged queries k d n s d' n' s' :
  all_tagged d ->
  retrieve_loop queries k d n s = ((d', n'), s') -> all_tagged d'.
Proof.
  revert d n s. induction queries as [|q queries IH]; intros d n s Hd.
  - by intros [= <- _ _].
  - rewrite retrieve_loop_cons.
    destruct (embed_query q s) as [[qvec|e] s1]; [|by apply IH].
    destruct (query_indexes indexes qvec k d s1) as [[d2 ok] s2] eqn:E.
    apply query_indexes_tagged in E; [|done|done].
    destruct ok; by apply IH.
Qed.

(** ** The transcript through the stages *)







Lemma multi_query_retrieve_none question k s r s' :
  multi_query_retrieve rt question k s = (r, s') ->
  received s s' = [] -> r = Ok [].
Proof.
  unfold multi_query_retrieve.
  destruct (negb (truthy (strip question))); [by intros [= <- <-]|].
  unfold bind.
  destruct (generate_alternative_queries_total rt question 3 s)
    as (queries & s1 & tr1 & -> & Hc1 & Hr1).
  destruct (retrieve_loop queries k [] 0 s1) as [[d n] s2] eqn:E.
  apply retrieve_loop_trace in E as (tr2 & Hc2 & ->).
  intros [= <- <-] Hrec. unfold received in Hrec.
  rewrite Hc2, Hc1, <- app_assoc, drop_app_length, flat_map_app, Hr1 in Hrec.
  simpl in Hrec. by rewrite Hrec.
Qed.

End PipelineFacts.

(** Every match the retriever returns carries the tag of one of the two
    indexes, so the context assembler never labels it as unknown. *)
Theorem multi_query_retrieve_tagged (rt : runtime) (question : str) (k : Z)
  (s : Chat.state) :
  exists ms s',
    Chat.multi_query_retrieve rt question k s = (Ok ms, s')
    /\ Forall tagged ms.
Proof.
  unfold Chat.multi_query_retrieve.
  destruct (negb (truthy (strip question))); [by exists [], s|].
  unfold Chat.bind.
  destruct (generate_alternative_queries_total rt question 3 s)
    as (queries & s1 & tr1 & -> & _).
  destruct (Chat.retrieve_loop queries k [] 0 s1) as [[d n] s2] eqn:E.
  apply retrieve_loop_tagged in E; [|intros ? ? H; inversion H].
  eexists _, s2. split; [done|].
  apply Forall_forall. intros m Hm. unfold dict_values in Hm.
  apply list_elem_of_fmap in Hm as ([k' m'] & -> & Hin). by apply (E k').
Qed.


(** When the indexes return nothing for a question that is not blank, the
    answer is the fixed no-results message and the run ends there: the state
    is the one the retriever left, so no further call is made and the
    transcript is untouched. *)
Theorem answer_question_no_results (rt : runtime) (question : str)
  (s : Chat.state) :
  truthy (strip question) = true ->
  received s (Chat.multi_query_retrieve rt question 5 s).2 = [] ->
  Chat.answer_question rt question s
  = (Ok (lit "I couldn't find relevant information."),
     (Chat.multi_query_retrieve rt question 5 s).2).
Proof.
  intros Hq Hrec. unfold Chat.answer_question.
  rewrite Hq. change (negb true) with false. cbv iota.
  unfold Chat.try_catch, Chat.answer_pipeline, Chat.bind. cbv beta.
  destruct (Chat.multi_query_retrieve rt question 5 s) as [r s1] eqn:E.
  apply multi_query_retrieve_none in E as ->; [reflexivity | exact Hrec].
Qed.

Lemma answer_question_no_results_witness :
  Chat.answer_question ascii_runtime (lit "What is Article 21?")
    (fresh [Chat.RespText (lit "What does Article 21 say?");
            Chat.RespVector [1 # 2]%Q;
            Chat.RespMatches []])
  = (Ok (lit "I couldn't find relevant information."),
     (Chat.multi_query_retrieve ascii_runtime (lit "What is Article 21?") 5
        (fresh [Chat.RespText (lit "What does Article 21 say?");
                Chat.RespVector [1 # 2]%Q;
                Chat.RespMatches []])).2).
Proof.
  apply answer_question_no_results; vm_compute; reflexivity.
Defined.

(* ===================================================================== *)
(** * The reranker follows the reply                                      *)
(* ===================================================================== *)

Section FollowFacts.

Import Chat.
Variable rt : runtime.

(** Fed the numbers of a ranking that names exactly the missing indices,
    the selection loop takes them in the order given and stops. *)
Lemma select_loop_follows numbers extra idxs n top_k selected :
  map (int_of_digits rt) numbers = idxs ++ extra ->
  idxs <> [] ->
  well_selected n (selected ++ idxs) ->
  len (selected ++ idxs) = top_k ->
  select_loop rt numbers n top_k selected = selected ++ idxs.
Proof.
  revert numbers selected.
  induction idxs as [|i idxs IH]; intros numbers selected Hmap Hne Hwell Hlen;
    [done|].
  destruct numbers as [|num numbers]; [done|].
  simpl in Hmap. injection Hmap as Hi Hmap. simpl. rewrite Hi.
  destruct Hwell as [Hnd Hall].
  assert (Hin : 0 <= i < n).
  { apply Forall_app in Hall as [_ Hall]. by inversion Hall. }
  assert (Hmem : mem i selected = false).
  { destruct (mem i selected) eqn:E; [|done].
    apply mem_elem in E. apply NoDup_app in Hnd as (_ & Hdis & _).
    destruct (Hdis i E). left. }
  replace ((0 <=? i) && (i <? n) && negb (mem i selected)) with true
    by (rewrite Hmem; symmetry; apply andb_true_iff; split;
        [apply andb_true_iff; lia | done]).
  rewrite !len_app, len_cons in Hlen.
  destruct idxs as [|j idxs].
  - replace (len (selected ++ [i]) >=? top_k) with true; [done|].
    rewrite len_app. unfold len in *. simpl length in *. symmetry.
    rewrite Z.geb_leb. apply Z.leb_le. lia.
  - replace (len (selected ++ [i]) >=? top_k) with false.
    2:{ rewrite len_app. unfold len in *. simpl length in *. symmetry.
        rewrite Z.geb_leb. apply Z.leb_gt. lia. }
    rewrite (IH numbers (selected ++ [i])).
    + by rewrite <- app_assoc.
    + exact Hmap.
    + done.
    + rewrite <- app_assoc. by split.
    + rewrite <- app_assoc, len_app. unfold len in *. simpl length in *. lia.
Qed.

Lemma chat_completion_text messages temperature max_tokens timeout s raw rest :
  pending s = RespText raw :: rest ->
  exists s',
    chat_completion messages temperature max_tokens timeout s = (Ok raw, s').
Proof.
  intros H. unfold chat_completion, service. rewrite H. eauto.
Qed.

Lemma rerank_chunks_follows question chunks top_k s raw rest idxs extra :
  top_k < len chunks ->
  pending s = RespText raw :: rest ->
  map (int_of_digits rt) (findall_numbers rt (strip raw)) = idxs ++ extra ->
  idxs <> [] ->
  well_selected (len chunks) idxs ->
  len idxs = top_k ->
  exists picked s',
    rerank_chunks rt question chunks top_k s = (Ok picked, s')
    /\ Forall2 (fun i c => chunks !! Z.to_nat i = Some c) idxs picked.
Proof.
  intros Hlt Hpend Hmap Hne Hwell Hlen. unfold rerank_chunks.
  destruct chunks as [|c chunks]; [unfold len in Hlt; simpl in Hlt;
    pose proof (len_nonneg idxs); lia|].
  set (pool := c :: chunks) in *.
  replace (len pool <=? top_k) with false by lia.
  unfold try_catch, bind.
  destruct (chat_completion_text
              [(lit "user", rerank_prompt question pool top_k)]
              0%Q 100 30 s raw rest Hpend) as (s1 & ->).
  assert (Hsel : select_indices rt (strip raw) (length pool) top_k = idxs).
  { unfold select_indices.
    rewrite (select_loop_follows _ extra idxs _ top_k []); try done.
    replace (len ([] ++ idxs) <? top_k) with false; [done|].
    simpl. lia. }
  rewrite Hsel, slice_to_all by lia.
  destruct (items_in_range pool idxs) as (picked & -> & Hall);
    [by destruct Hwell|].
  by exists picked, s1.
Qed.

End FollowFacts.

(** When the reranker's reply, read as the numbers it contains, starts with
    [top_k] distinct indices inside the pool, the reranker returns exactly
    the chunks at those indices, in the order the reply gives them; whatever
    numbers follow are ignored and nothing is padded. *)
Theorem rerank_chunks_follows_reply (rt : runtime) (question : str)
  (chunks : list Chat.Match) (top_k : Z) (s : Chat.state)
  (raw : str) (rest : list Chat.response) (idxs extra : list Z) :
  top_k < len chunks ->
  Chat.pending s = Chat.RespText raw :: rest ->
  map (Chat.int_of_digits rt) (Chat.findall_numbers rt (strip raw))
  = idxs ++ extra ->
  idxs <> [] ->
  well_selected (len chunks) idxs ->
  len idxs = top_k ->
  exists picked s',
    Chat.rerank_chunks rt question chunks top_k s = (Ok picked, s')
    /\ Forall2 (fun i c => chunks !! Z.to_nat i = Some c) idxs picked.
Proof. apply rerank_chunks_follows. Qed.

Lemma rerank_chunks_follows_reply_witness :
  exists picked s',
    Chat.rerank_chunks ascii_runtime (lit "What is murder?") mixed_pool 2
      (fresh [Chat.RespText (lit "Chunks 2, 0 and then 1")])
    = (Ok picked, s')
    /\ Forall2 (fun i c => mixed_pool !! Z.to_nat i = Some c) [2; 0] picked
    /\ map Chat.id picked = [lit "c3"; lit "c1"].
Proof.
  destruct (rerank_chunks_follows_reply ascii_runtime (lit "What is murder?")
              mixed_pool 2 (fresh [Chat.RespText (lit "Chunks 2, 0 and then 1")])
              (lit "Chunks 2, 0 and then 1") [] [2; 0] [1])
    as (picked & s' & Hrun & Hall).
  - vm_compute. reflexivity.
  - reflexivity.
  - vm_compute. reflexivity.
  - discriminate.
  - apply (bool_decide_unpack _). vm_compute. reflexivity.
  - reflexivity.
  - exists picked, s'. split; [exact Hrun|]. split; [exact Hall|].
    vm_compute in Hrun. injection Hrun as <- <-. vm_compute. reflexivity.
Defined.

(* ===================================================================== *)
(** * A context that fits                                                 *)
(* ===================================================================== *)

Section FitFacts.

Import Chat.
Variable rt : runtime.

Lemma snippets_cons c chunks :
  snippets rt (c :: chunks)
  = if has_text c then snippet_of rt c :: snippets rt chunks
    else snippets rt chunks.
Proof. unfold snippets. simpl. by destruct (has_text c). Qed.

Lemma total_len_nonneg parts : 0 <= total_len parts.
Proof.
  induction parts as [|p parts IH]; simpl; [lia|].
  pose proof (len_nonneg p). lia.
Qed.

(** While everything fits strictly below the budget, the loop accepts every
    snippet whole. *)
Lemma context_loop_fits chunks max_length parts total :
  total + total_len (snippets rt chunks) < max_length ->
  context_loop rt chunks max_length parts total = parts ++ snippets rt chunks.
Proof.
  revert parts total.
  induction chunks as [|c chunks IH]; intros parts total Hfit.
  - simpl. by rewrite app_nil_r.
  - rewrite context_loop_cons. cbv zeta. rewrite snippets_cons in *.
    unfold has_text in *.
    destruct (truthy (strip (default [] (text (metadata c))))); simpl negb;
      cbv iota.
    + fold (snippet_of rt c). simpl in Hfit.
      pose proof (total_len_nonneg (snippets rt chunks)).
      replace (total + len (snippet_of rt c) >? max_length) with false
        by (symmetry; rewrite Z.gtb_ltb; apply Z.ltb_ge; lia).
      replace (total + len (snippet_of rt c) >=? max_length) with false
        by (symmetry; rewrite Z.geb_leb; apply Z.leb_gt; lia).
      rewrite IH by lia. by rewrite <- app_assoc.
    + by apply IH.
Qed.

(** Chunks without text contribute nothing, whatever the budget. *)
Lemma context_loop_blank chunks max_length parts total :
  snippets rt chunks = [] ->
  context_loop rt chunks max_length parts total = parts.
Proof.
  revert parts total.
  induction chunks as [|c chunks IH]; intros parts total Hnone; [done|].
  rewrite context_loop_cons. cbv zeta. rewrite snippets_cons in Hnone.
  unfold has_text in Hnone.
  destruct (truthy (strip (default [] (text (metadata c))))); [done|].
  by apply IH.
Qed.

End FitFacts.

(** When the snippets of all chunks with text stay strictly below the
    budget, the context is all of them, whole and in the order of the
    chunks, joined by blank lines; chunks whose text is missing or blank are
    skipped. *)
Theorem build_context_fits (rt : runtime) (chunks : list Chat.Match)
  (max_length : Z) :
  total_len (snippets rt chunks) < max_length ->
  Chat.build_context rt chunks max_length
  = join (Chat.nl ++ Chat.nl) (snippets rt chunks).
Proof.
  intros H. unfold Chat.build_context.
  by rewrite context_loop_fits by lia.
Qed.

Lemma build_context_fits_witness :
  total_len (snippets ascii_runtime short_pool) < 8000
  /\ Chat.build_context ascii_runtime short_pool 8000
     = join (Chat.nl ++ Chat.nl) (snippets ascii_runtime short_pool).
Proof.
  assert (H : total_len (snippets ascii_runtime short_pool) < 8000)
    by (vm_compute; reflexivity).
  split; [exact H | exact (build_context_fits ascii_runtime short_pool 8000 H)].
Defined.

(** When no chunk has text, the context is empty for every budget, so the
    answer stage reports that it found no meaningful content. *)
Theorem build_context_without_text (rt : runtime) (chunks : list Chat.Match)
  (max_length : Z) :
  Forall (fun c => has_text c = false) chunks ->
  Chat.build_context rt chunks max_length = [].
Proof.
  intros H. unfold Chat.build_context.
  rewrite context_loop_blank; [done|].
  unfold snippets. induction H as [|c chunks Hc _ IH]; simpl; [done|].
  by rewrite Hc.
Qed.

Lemma build_context_without_text_witness :
  Chat.build_context ascii_runtime
    [sample "c1" (9 # 10) "criminal" "   ";
     {| Chat.id := lit "c2"; Chat.score := (1 # 2)%Q;
        Chat.metadata := {| Chat.text := None; Chat.index_source := None;
                            Chat.fields := [] |} |}] 8000
  = [].
Proof.
  apply build_context_without_text.
  repeat constructor.
Defined.

(* ===================================================================== *)
(** * Previews of the evaluation report                                   *)
(* ===================================================================== *)

Section PreviewFacts.

Context {A : Type} (P : A -> Prop).




End PreviewFacts.


